(** * Task-execution core of doc-analysis-vector-async

    A shallow embedding of the retry wrapper and the error classifier
    ([backend/error_handler.py]), the SQLite task queue
    ([backend/sqlite_queue.py]) and the document pipeline
    ([backend/tasks.py]).

    Conventions of the embedding:
    - Python strings are [string]s; [str.lower] is a parameter [lower] of
      the classifier (a Section variable), so that the statements about
      classification hold for Python's Unicode lowering; a concrete ASCII
      lowering [ascii_lower] is used to run examples.
    - Python floats (delays) are exact rationals [Q].
    - Timestamps are integers [Z] (seconds).
    - A raised exception is the right component of a sum; the
      observable effects (stage invocations, sleeps, status updates) are
      written into a trace of [event]s. *)

From Stdlib Require Import String Ascii List Bool ZArith Lia QArith Qminmax Qpower Lqa Permutation.
Import ListNotations.
Open Scope nat_scope.
Open Scope string_scope.
Set Warnings "-register-all".

(* ------------------------------------------------------------------ *)
(** ** Exceptions *)

(** [class ErrorType(Enum)] *)
Inductive ErrorType : Type :=
| NETWORK_ERROR
| API_ERROR
| FILE_ERROR
| PARSING_ERROR
| DATABASE_ERROR
| UNKNOWN_ERROR.

(** Built-in exception classes the code distinguishes with [isinstance]
    or names in an [except] clause.  [ConnectionError], [TimeoutError],
    [FileNotFoundError] and [PermissionError] are subclasses of
    [OSError] (= [IOError]); [OtherException] is any other subclass of
    [Exception]. *)
Inductive pyclass : Type :=
| ConnectionError
| TimeoutError
| FileNotFoundError
| PermissionError
| OSError
| TypeError_
| CeleryRetry     (** [celery.exceptions.Retry], raised by [self.retry] *)
| OtherException.

(** The exceptions: the two typed errors of [error_handler.py]
    ([message], [error_type], [original_error]) and built-in ones. *)
Inductive exn : Type :=
| RetryableError (message : string) (error_type : ErrorType) (original_error : option exn)
| NonRetryableError (message : string) (error_type : ErrorType) (original_error : option exn)
| PyError (cls : pyclass) (text : string).

(** [str(e)]: both typed errors call [super().__init__(message)]. *)
Definition py_str (e : exn) : string :=
  match e with
  | RetryableError m _ _ => m
  | NonRetryableError m _ _ => m
  | PyError _ t => t
  end.

(** [isinstance(e, IOError)] *)
Definition is_oserror (e : exn) : bool :=
  match e with
  | PyError (ConnectionError | TimeoutError | FileNotFoundError
            | PermissionError | OSError) _ => true
  | _ => false
  end.

(* ------------------------------------------------------------------ *)
(** ** Strings *)

(** Python's [sub in s]. *)
Fixpoint contains (sub s : string) : bool :=
  if String.prefix sub s then true
  else match s with
       | EmptyString => false
       | String _ s' => contains sub s'
       end.

(** ASCII lowering, used to evaluate examples. *)
Definition ascii_lower_char (c : ascii) : ascii :=
  let n := nat_of_ascii c in
  if andb (Nat.leb 65 n) (Nat.leb n 90) then ascii_of_nat (n + 32) else c.

Fixpoint ascii_lower (s : string) : string :=
  match s with
  | EmptyString => EmptyString
  | String c s' => String (ascii_lower_char c) (ascii_lower s')
  end.

(* ------------------------------------------------------------------ *)
(** ** Error classification ([ErrorHandler], [log_and_handle_error]) *)

Section Classifier.

(** [str.lower] *)
Variable lower : string -> string.

Definition handle_file_error (e : exn) (file_path : string) : exn :=
  match e with
  | PyError FileNotFoundError _ =>
      NonRetryableError ("文件不存在: " ++ file_path) FILE_ERROR (Some e)
  | PyError PermissionError _ =>
      NonRetryableError ("文件权限错误: " ++ file_path) FILE_ERROR (Some e)
  | _ =>
      if is_oserror e
      then RetryableError ("文件IO错误: " ++ file_path) FILE_ERROR (Some e)
      else NonRetryableError ("文件处理错误: " ++ py_str e) FILE_ERROR (Some e)
  end.

Definition handle_api_error (e : exn) (api_name : string) : exn :=
  let error_msg := lower (py_str e) in
  if contains "rate limit" error_msg || contains "quota" error_msg then
    RetryableError (api_name ++ " API限额错误: " ++ py_str e) API_ERROR (Some e)
  else if contains "timeout" error_msg then
    RetryableError (api_name ++ " API超时: " ++ py_str e) API_ERROR (Some e)
  else if contains "connection" error_msg || contains "network" error_msg then
    RetryableError (api_name ++ " 网络连接错误: " ++ py_str e) NETWORK_ERROR (Some e)
  else if contains "unauthorized" error_msg || contains "authentication" error_msg then
    NonRetryableError (api_name ++ " 认证失败: " ++ py_str e) API_ERROR (Some e)
  else if contains "bad request" error_msg || contains "invalid" error_msg then
    NonRetryableError (api_name ++ " 请求参数错误: " ++ py_str e) API_ERROR (Some e)
  else
    RetryableError (api_name ++ " API错误: " ++ py_str e) API_ERROR (Some e).

Definition handle_database_error (e : exn) (operation : string) : exn :=
  let error_msg := lower (py_str e) in
  if contains "connection" error_msg || contains "timeout" error_msg then
    RetryableError ("数据库连接错误 (" ++ operation ++ "): " ++ py_str e) DATABASE_ERROR (Some e)
  else if contains "lock" error_msg || contains "busy" error_msg then
    RetryableError ("数据库忙碌 (" ++ operation ++ "): " ++ py_str e) DATABASE_ERROR (Some e)
  else if contains "disk" error_msg || contains "space" error_msg then
    NonRetryableError ("数据库存储空间不足 (" ++ operation ++ "): " ++ py_str e) DATABASE_ERROR (Some e)
  else
    RetryableError ("数据库操作错误 (" ++ operation ++ "): " ++ py_str e) DATABASE_ERROR (Some e).

Definition handle_parsing_error (e : exn) (file_name : string) : exn :=
  let error_msg := lower (py_str e) in
  if contains "corrupted" error_msg || contains "damaged" error_msg then
    NonRetryableError ("文档损坏 (" ++ file_name ++ "): " ++ py_str e) PARSING_ERROR (Some e)
  else if contains "unsupported" error_msg || contains "format" error_msg then
    NonRetryableError ("不支持的文档格式 (" ++ file_name ++ "): " ++ py_str e) PARSING_ERROR (Some e)
  else if contains "memory" error_msg || contains "resource" error_msg then
    RetryableError ("解析资源不足 (" ++ file_name ++ "): " ++ py_str e) PARSING_ERROR (Some e)
  else
    RetryableError ("文档解析错误 (" ++ file_name ++ "): " ++ py_str e) PARSING_ERROR (Some e).

(** The classifying part of [log_and_handle_error]; its call of
    [error_tracker.record_error] is modelled separately (section
    [Tracker]) and its logging is not observable. *)
Definition log_and_handle_error (error : exn) (context : string) : exn :=
  let m := lower (py_str error) in
  if contains "openai" m || contains "api" m then
    handle_api_error error "OpenAI"
  else if contains "file" m || contains "path" m then
    handle_file_error error context
  else if contains "database" m || contains "chroma" m then
    handle_database_error error context
  else if contains "parse" m || contains "mineru" m then
    handle_parsing_error error context
  else
    RetryableError ("未分类错误: " ++ py_str error) UNKNOWN_ERROR (Some error).

End Classifier.

(** The keywords [log_and_handle_error] dispatches on. *)
Definition dispatch_keywords : list string :=
  [ "openai"; "api"; "file"; "path"; "database"; "chroma"; "parse"; "mineru" ].

(** Every keyword the classifier tests, at the top level or in one of
    the [ErrorHandler] methods. *)
Definition classifier_keywords : list string :=
  dispatch_keywords ++
  [ "rate limit"; "quota"; "timeout"; "connection"; "network";
    "unauthorized"; "authentication"; "bad request"; "invalid";
    "lock"; "busy"; "disk"; "space";
    "corrupted"; "damaged"; "unsupported"; "format"; "memory"; "resource" ]%list.

(** Verdict and kind of a typed error. *)
Definition verdict (e : exn) : option (bool * ErrorType) :=
  match e with
  | RetryableError _ k _ => Some (true, k)
  | NonRetryableError _ k _ => Some (false, k)
  | PyError _ _ => None
  end.


(* ------------------------------------------------------------------ *)
(** ** Traces and the writer/exception monad *)

Inductive event : Type :=
| Invoke (stage : string) (attempt : nat)       (** the wrapped function is called *)
| Sleep (seconds : Q)                            (** [time.sleep(delay)] *)
| Status (status : string) (progress : Z) (message : string)
                                                (** [update_file_status] *)
| LogStage (stage status : string)              (** [db_manager.log_processing_stage] *)
| Results (field : string).                     (** [db_manager.update_file_results] *)

(** A computation that emits events and returns a value or raises. *)
Definition M (A : Type) : Type := (list event * (A + exn))%type.

Definition ret {A} (a : A) : M A := ([], inl a).
Definition raise {A} (e : exn) : M A := ([], inr e).
Definition emit (ev : event) : M unit := ([ev], inl tt).
Definition bind {A B} (m : M A) (k : A -> M B) : M B :=
  match m with
  | (tr, inl a) => let '(tr', r) := k a in (app tr tr', r)
  | (tr, inr e) => (tr, inr e)
  end.
(** [try m except e: h e] *)
Definition catch {A} (m : M A) (h : exn -> M A) : M A :=
  match m with
  | (tr, inl a) => (tr, inl a)
  | (tr, inr e) => let '(tr', r) := h e in (app tr tr', r)
  end.

Notation "x <- m ;; k" := (bind m (fun x => k))
  (at level 61, m at next level, right associativity).
Notation "m ;;; k" := (bind m (fun _ => k))
  (at level 61, right associativity).

(* ------------------------------------------------------------------ *)
(** ** Backoff policy and [retry_with_backoff] *)

(** [backoff_factor ** attempt] *)
Fixpoint qpow (f : Q) (n : nat) : Q :=
  match n with
  | O => 1%Q
  | S n' => (f * qpow f n')%Q
  end.

(** Python's [min(a, b)]: [b] if [b < a], else [a]. *)
Definition py_min (a b : Q) : Q := if Qle_bool a b then a else b.

(** [delay = min(base_delay * (backoff_factor ** attempt), max_delay)] *)
Definition backoff_delay (base_delay max_delay backoff_factor : Q) (attempt : nat) : Q :=
  py_min (base_delay * qpow backoff_factor attempt)%Q max_delay.

(** The default [retryable_exceptions]:
    [(RetryableError, ConnectionError, TimeoutError)]. *)
Definition is_retryable_exc (e : exn) : bool :=
  match e with
  | RetryableError _ _ _ => true
  | PyError ConnectionError _ => true
  | PyError TimeoutError _ => true
  | _ => false
  end.

Section Retry.

Context {A : Type}.
(** [func.__name__], used to tag the trace. *)
Variable name : string.
(** The wrapped callable: the outcome of its [attempt]-th call. *)
Variable func : nat -> A + exn.
Variables (max_retries : Z) (base_delay max_delay backoff_factor : Q).

(** The body of [for attempt in range(max_retries + 1)]: [fuel] is
    the number of iterations left, [last_exception] the variable of the
    same name. *)
Fixpoint retry_loop (fuel attempt : nat) (last_exception : option exn) : M A :=
  match fuel with
  | O =>
      (* raise last_exception; raising None is a TypeError *)
      match last_exception with
      | Some e => raise e
      | None => raise (PyError TypeError_ "exceptions must derive from BaseException")
      end
  | S fuel' =>
      emit (Invoke name attempt) ;;;
      match func attempt with
      | inl v => ret v
      | inr e =>
          if is_retryable_exc e then
            if Z.eqb (Z.of_nat attempt) max_retries then raise e
            else emit (Sleep (backoff_delay base_delay max_delay backoff_factor attempt)) ;;;
                 retry_loop fuel' (S attempt) (Some e)
          else match e with
               | NonRetryableError _ _ _ => raise e
               | _ => raise (NonRetryableError ("未知错误: " ++ py_str e) UNKNOWN_ERROR (Some e))
               end
      end
  end.

(** [retry_with_backoff(max_retries, base_delay, max_delay, backoff_factor)(func)()] *)
Definition retry_with_backoff : M A :=
  retry_loop (Z.to_nat (max_retries + 1)) 0 None.

End Retry.

(** What the run's last call leads to, by the kind of its outcome. *)
Definition retry_final {A} (o : A + exn) : A + exn :=
  match o with
  | inl v => inl v
  | inr e =>
      if is_retryable_exc e then inr e
      else match e with
           | NonRetryableError _ _ _ => inr e
           | _ => inr (NonRetryableError ("未知错误: " ++ py_str e) UNKNOWN_ERROR (Some e))
           end
  end.

(** The trace of [k] failed-and-retried calls: call, sleep, call, sleep ... *)
Definition retry_prefix (name : string) (delay : nat -> Q) (k : nat) : list event :=
  flat_map (fun i => [Invoke name i; Sleep (delay i)]) (seq 0 k).

(** The sleeps of a trace. *)
Fixpoint sleeps (tr : list event) : list Q :=
  match tr with
  | [] => []
  | Sleep d :: tr' => d :: sleeps tr'
  | _ :: tr' => sleeps tr'
  end.

(* ------------------------------------------------------------------ *)
(** ** [TaskErrorTracker] *)

(** [type(error).__name__] *)
Definition exn_class_name (e : exn) : string :=
  match e with
  | RetryableError _ _ _ => "RetryableError"
  | NonRetryableError _ _ _ => "NonRetryableError"
  | PyError ConnectionError _ => "ConnectionError"
  | PyError TimeoutError _ => "TimeoutError"
  | PyError FileNotFoundError _ => "FileNotFoundError"
  | PyError PermissionError _ => "PermissionError"
  | PyError OSError _ => "OSError"
  | PyError TypeError_ _ => "TypeError"
  | PyError CeleryRetry _ => "Retry"
  | PyError OtherException _ => "Exception"
  end.

Record error_record : Type := mk_error_record {
  er_task_id : string;
  er_error_type : string;
  er_error_message : string;
  er_timestamp : Z
}.

Record tracker : Type := mk_tracker {
  error_counts : list (string * nat);   (** the dict, as an association list *)
  error_history : list error_record
}.

Definition empty_tracker : tracker := mk_tracker [] [].

Fixpoint count_lookup (counts : list (string * nat)) (task_id : string) : nat :=
  match counts with
  | [] => 0
  | (k, n) :: cs => if String.eqb k task_id then n else count_lookup cs task_id
  end.

(** [if task_id not in counts: counts[task_id] = 0; counts[task_id] += 1] *)
Fixpoint count_incr (counts : list (string * nat)) (task_id : string) : list (string * nat) :=
  match counts with
  | [] => [(task_id, 1)]
  | (k, n) :: cs =>
      if String.eqb k task_id then (k, S n) :: cs else (k, n) :: count_incr cs task_id
  end.

(** Python's [l[-n:]]. *)
Definition last_n {X} (n : nat) (l : list X) : list X := skipn (length l - n) l.

(** [record_error(task_id, error)] at time [now]. *)
Definition record_error (t : tracker) (task_id : string) (error : exn) (now : Z) : tracker :=
  let counts := count_incr (error_counts t) task_id in
  let rec := mk_error_record task_id (exn_class_name error) (py_str error) now in
  let history := (error_history t ++ [rec])%list in
  let history := if Nat.ltb 1000 (length history) then last_n 500 history else history in
  mk_tracker counts history.

(** [get_error_count] and [should_skip_task] *)
Definition get_error_count (t : tracker) (task_id : string) : nat :=
  count_lookup (error_counts t) task_id.

Definition should_skip_task (t : tracker) (task_id : string) (max_errors : nat) : bool :=
  Nat.leb max_errors (get_error_count t task_id).

(** The history entry of one [record_error] call. *)
Definition record_of (c : string * exn * Z) : error_record :=
  let '(tid, e, now) := c in mk_error_record tid (exn_class_name e) (py_str e) now.

(** A sequence of [record_error] calls. *)
Fixpoint record_all (t : tracker) (calls : list (string * exn * Z)) : tracker :=
  match calls with
  | [] => t
  | (tid, e, now) :: cs => record_all (record_error t tid e now) cs
  end.

(* ------------------------------------------------------------------ *)
(** ** [SQLiteTaskQueue] *)

(** The values the code writes into the [status] column. *)
Inductive task_status : Type := Pending | Processing | Retry | Completed | Failed.

(** A row of [task_queue]. *)
Record task : Type := mk_task {
  id : string;
  task_name : string;
  args : string;             (** JSON text *)
  kwargs : string;           (** JSON text *)
  status : task_status;
  created_at : Z;
  started_at : option Z;
  completed_at : option Z;
  retry_count : Z;
  max_retries : Z;
  next_retry_at : option Z;
  result : option string;
  error_message : option string
}.

(** The table, in insertion order. *)
Definition table := list task.

(** [INSERT INTO task_queue (id, task_name, args, kwargs)]: every other
    column takes its [DEFAULT]; the id is [str(uuid.uuid4())] and
    [created_at] is [CURRENT_TIMESTAMP]. *)
Definition new_task (task_id name a kw : string) (now : Z) : task :=
  mk_task task_id name a kw Pending now None None 0 3 None None None.

(** [UPDATE task_queue SET ... WHERE id = ?] *)
Definition update_where (i : string) (f : task -> task) (tbl : table) : table :=
  map (fun t => if String.eqb (id t) i then f t else t) tbl.

(** [id] is the PRIMARY KEY: inserting an existing id raises
    [sqlite3.IntegrityError] and leaves the table as it is. *)
Definition enqueue (task_id name a kw : string) (now : Z) (tbl : table) : table :=
  if existsb (fun t => String.eqb (id t) task_id) tbl then tbl
  else (tbl ++ [new_task task_id name a kw now])%list.

(** [SELECT ... WHERE id = ?] with [fetchone()] *)
Fixpoint find_task (i : string) (tbl : table) : option task :=
  match tbl with
  | [] => None
  | t :: ts => if String.eqb (id t) i then Some t else find_task i ts
  end.

(** [status IN ('pending', 'retry') AND (next_retry_at IS NULL OR next_retry_at <= now)] *)
Definition claimable (now : Z) (t : task) : bool :=
  match status t with
  | Pending | Retry =>
      match next_retry_at t with
      | None => true
      | Some n => Z.leb n now
      end
  | _ => false
  end.

(** [ORDER BY created_at ASC LIMIT 1] over the claimable rows; among rows
    with equal [created_at] the first in table order is taken. *)
Fixpoint oldest_claimable (now : Z) (best : option task) (tbl : table) : option task :=
  match tbl with
  | [] => best
  | t :: ts =>
      if claimable now t then
        match best with
        | None => oldest_claimable now (Some t) ts
        | Some b =>
            if Z.ltb (created_at t) (created_at b)
            then oldest_claimable now (Some t) ts
            else oldest_claimable now best ts
        end
      else oldest_claimable now best ts
  end.

(** The dict [dequeue] returns. *)
Record queued_task : Type := mk_queued {
  q_id : string;
  q_task_name : string;
  q_args : string;
  q_kwargs : string;
  q_retry_count : Z
}.

Definition queued_of (t : task) : queued_task :=
  mk_queued (id t) (task_name t) (args t) (kwargs t) (retry_count t).

(** [SET status = 'processing', started_at = ?] *)
Definition mark_processing (stamp : Z) (t : task) : task :=
  mk_task (id t) (task_name t) (args t) (kwargs t) Processing (created_at t)
    (Some stamp) (completed_at t) (retry_count t) (max_retries t)
    (next_retry_at t) (result t) (error_message t).

(** [dequeue()]: [now] is the [datetime.now()] of the SELECT, [stamp] that
    of the UPDATE. *)
Definition dequeue (now stamp : Z) (tbl : table) : option queued_task * table :=
  match oldest_claimable now None tbl with
  | None => (None, tbl)
  | Some t => (Some (queued_of t), update_where (id t) (mark_processing stamp) tbl)
  end.

(** [complete_task(task_id, result)]; [res] is [json.dumps(result) if result else None]. *)
Definition complete_task (task_id : string) (res : option string) (now : Z) (tbl : table) : table :=
  update_where task_id
    (fun t => mk_task (id t) (task_name t) (args t) (kwargs t) Completed (created_at t)
                (started_at t) (Some now) (retry_count t) (max_retries t)
                (next_retry_at t) res (error_message t))
    tbl.

(** [timedelta(minutes=2 ** retry_count)], in seconds. *)
Definition retry_backoff (rc : Z) : Z := (60 * 2 ^ rc)%Z.

(** [SET status = 'retry', retry_count = ?, next_retry_at = ?, error_message = ?]
    with the values computed from the fetched [retry_count] [rc]. *)
Definition set_retry (rc : Z) (msg : string) (now : Z) (t : task) : task :=
  mk_task (id t) (task_name t) (args t) (kwargs t) Retry (created_at t)
    (started_at t) (completed_at t) (rc + 1)%Z (max_retries t)
    (Some (now + retry_backoff rc)%Z) (result t) (Some msg).

Definition set_failed (msg : string) (t : task) : task :=
  mk_task (id t) (task_name t) (args t) (kwargs t) Failed (created_at t)
    (started_at t) (completed_at t) (retry_count t) (max_retries t)
    (next_retry_at t) (result t) (Some msg).

(** [fail_task(task_id, error_message, retry)] at time [now]. *)
Definition fail_task (task_id msg : string) (retry : bool) (now : Z) (tbl : table) : table :=
  match find_task task_id tbl with
  | None => tbl
  | Some row =>
      if retry && Z.ltb (retry_count row) (max_retries row)
      then update_where task_id (set_retry (retry_count row) msg now) tbl
      else update_where task_id (set_failed msg) tbl
  end.

(** The queue operations, with the clock readings they take. *)
Inductive queue_op : Type :=
| OpEnqueue (task_id name a kw : string) (now : Z)
| OpDequeue (now stamp : Z)
| OpComplete (task_id : string) (res : option string) (now : Z)
| OpFail (task_id msg : string) (retry : bool) (now : Z).

Definition apply_op (o : queue_op) (tbl : table) : table :=
  match o with
  | OpEnqueue i n a kw now => enqueue i n a kw now tbl
  | OpDequeue now stamp => snd (dequeue now stamp tbl)
  | OpComplete i r now => complete_task i r now tbl
  | OpFail i m r now => fail_task i m r now tbl
  end.

(** Ids are unique (the PRIMARY KEY) and [0 <= retry_count <= max_retries]. *)
Definition queue_wf (tbl : table) : Prop :=
  NoDup (map id tbl) /\
  Forall (fun t => (0 <= retry_count t <= max_retries t)%Z) tbl.

(** [SQLiteTaskWorker.process_task]: an unregistered name fails the task
    with [retry=False]; a raising handler fails it with the default
    [retry=True]; [outcome] is the handler's result. *)
Definition process_task (registered : string -> bool) (q : queued_task)
    (outcome : option string + string) (now : Z) (tbl : table) : table :=
  if negb (registered (q_task_name q)) then
    fail_task (q_id q) ("未知任务类型: " ++ q_task_name q) false now tbl
  else match outcome with
       | inl res => complete_task (q_id q) res now tbl
       | inr err => fail_task (q_id q) ("任务执行失败: " ++ err) true now tbl
       end.

(* ------------------------------------------------------------------ *)
(** ** Concurrent [dequeue] calls *)

(** Where a caller of [dequeue] is: before [with self.lock], inside the
    lock after the SELECT returned a row, or returned. *)
Inductive phase : Type :=
| Idle
| Selected (row : task)
| Done (got : option queued_task).

Definition config : Type := (table * (nat -> phase))%type.

Definition upd (ph : nat -> phase) (i : nat) (p : phase) : nat -> phase :=
  fun j => if Nat.eqb j i then p else ph j.

Section Concurrent.

(** Callers [0 .. callers - 1]; caller [i] calls [dequeue] on the
    [SQLiteTaskQueue] object [instance_of i], whose [threading.Lock] it
    takes.  Every statement reads the clock as [now]. *)
Variable callers : nat.
Variable instance_of : nat -> nat.
Variable now : Z.

(** The lock of caller [i]'s object is free: no caller of the same object
    is between its SELECT and its UPDATE. *)
Definition lock_free (ph : nat -> phase) (i : nat) : Prop :=
  forall j r, j < callers -> instance_of j = instance_of i -> ph j <> Selected r.

(** One atomic step of one caller: taking the lock and running the
    SELECT (returning [None] releases the lock at once), or running the
    UPDATE and releasing the lock. *)
Inductive cstep : config -> config -> Prop :=
| cstep_select : forall tbl ph i,
    i < callers -> ph i = Idle -> lock_free ph i ->
    cstep (tbl, ph)
          (tbl, upd ph i (match oldest_claimable now None tbl with
                          | None => Done None
                          | Some r => Selected r
                          end))
| cstep_update : forall tbl ph i r,
    i < callers -> ph i = Selected r ->
    cstep (tbl, ph)
          (update_where (id r) (mark_processing now) tbl,
           upd ph i (Done (Some (queued_of r)))).

Inductive creach : config -> config -> Prop :=
| creach_refl : forall c, creach c c
| creach_step : forall c1 c2 c3, cstep c1 c2 -> creach c2 c3 -> creach c1 c3.

End Concurrent.

(** Number of callers below [n] that received a task / got [None]. *)
Fixpoint count_got (ph : nat -> phase) (n : nat) : nat :=
  match n with
  | O => 0
  | S n' => count_got ph n' + match ph n' with Done (Some _) => 1 | _ => 0 end
  end.

Fixpoint count_none (ph : nat -> phase) (n : nat) : nat :=
  match n with
  | O => 0
  | S n' => count_none ph n' + match ph n' with Done None => 1 | _ => 0 end
  end.

Definition all_done (ph : nat -> phase) (n : nat) : Prop :=
  forall i, i < n -> exists g, ph i = Done g.

Definition count_claimable (now : Z) (tbl : table) : nat :=
  length (filter (claimable now) tbl).

(* ------------------------------------------------------------------ *)
(** ** The document pipeline ([tasks.py]) *)

Fixpoint digits (fuel n : nat) (acc : string) : string :=
  match fuel with
  | O => acc
  | S f =>
      let acc' := String (ascii_of_nat (48 + n mod 10)) acc in
      if Nat.ltb n 10 then acc' else digits f (n / 10) acc'
  end.

(** [f"{n}"] for a natural number. *)
Definition nat_to_string (n : nat) : string := digits (S n) n "".

(** The result dict of [mineru_parse_document]: its ["content"] and
    ["metadata"]["total_pages"]. *)
Record parsed : Type := mk_parsed {
  content : string;
  total_pages : option Z
}.

(** A chunk dict (["title"], ["content"], ...), kept abstract as its text. *)
Definition chunk := string.
Definition embedding := list Q.

(** What [process_document] returns without raising. *)
Inductive doc_result : Type :=
| Skipped
| Processed (chunks_count : nat).

Section Pipeline.

Variable lower : string -> string.

(** [random.random()], the [n]-th draw of a [fallback_embeddings] call. *)
Variable random : nat -> Q.

(** [fallback_embeddings(chunks)]: one list of 768 draws per chunk. *)
Definition fallback_embeddings (chunks : list chunk) : list embedding :=
  map (fun j => map (fun i => random (j * 768 + i)) (seq 0 768)) (seq 0 (length chunks)).

(** [generate_embeddings(chunks)]: [engine] is the outcome of
    [OllamaProcessor().generate_embeddings(chunks)] (including the import
    and the constructor), caught by [except Exception]. *)
Definition generate_embeddings (engine : list embedding + exn) (chunks : list chunk)
    : list embedding :=
  match engine with
  | inl embeddings => embeddings
  | inr _ => fallback_embeddings chunks
  end.

(** The stage wrappers: each is [retry_with_backoff] over a body that
    classifies what the inner call raised with [log_and_handle_error]
    and raises the result. *)
Definition classify_outcome {A} (context : string) (o : A + exn) : A + exn :=
  match o with
  | inl v => inl v
  | inr e => inr (log_and_handle_error lower e context)
  end.

(** [mineru] is the outcome of [mineru_parse_document(filepath)] at each
    attempt. *)
Definition parse_document_with_retry (mineru : nat -> parsed + exn) : M parsed :=
  retry_with_backoff "parse_document_with_retry"
    (fun a => classify_outcome "parsing" (mineru a)) 2 1 60 2.

(** [chunker] is the outcome of [intelligent_chunking(parsed_content)]
    (the Ollama call with its own fallback) at each attempt. *)
Definition chunk_document_with_retry (chunker : nat -> list chunk + exn) : M (list chunk) :=
  retry_with_backoff "chunk_document_with_retry"
    (fun a => classify_outcome "chunking" (chunker a)) 2 (1 # 2) 60 2.

Definition generate_embeddings_with_retry (engine : nat -> list embedding + exn)
    (chunks : list chunk) : M (list embedding) :=
  retry_with_backoff "generate_embeddings_with_retry"
    (fun a => classify_outcome "embedding" (inl (generate_embeddings (engine a) chunks))) 3 2 60 2.

(** [storer] is the outcome of [store_to_vector_db(...)] at each attempt. *)
Definition store_with_retry (storer : nat -> unit + exn) : M unit :=
  retry_with_backoff "store_with_retry"
    (fun a => classify_outcome "storing" (storer a)) 2 1 60 2.

(** The inputs of one run of [process_document(file_id)]. *)
Record doc_input : Type := mk_doc_input {
  file_id : string;
  error_tracker : tracker;                (** the process-wide tracker at the start of the run *)
  file_record : option (string * string); (** [(filepath, filename)] of [get_file_record] *)
  mineru : nat -> parsed + exn;
  chunker : nat -> list chunk + exn;
  embed_engine : nat -> list embedding + exn;
  storer : nat -> unit + exn;
  completion_message : string             (** the message with the elapsed time *)
}.

Definition when (b : bool) (m : M unit) : M unit := if b then m else ret tt.

(** The [try] block of [process_document].  The tracker is read once, by
    the skip check at the start; the [record_error] calls made by
    [log_and_handle_error] during the run only matter to later runs.
    [update_file_status] swallows its own failures; its writes are the
    [Status] events. *)
Definition process_document_body (d : doc_input) : M doc_result :=
  if should_skip_task (error_tracker d) (file_id d) 3 then
    emit (Status "error" 0 ("❌ 任务跳过: 错误次数过多 ("
                             ++ nat_to_string (get_error_count (error_tracker d) (file_id d))
                             ++ " 次)")) ;;;
    ret Skipped
  else
  match file_record d with
  | None => raise (NonRetryableError "文件信息不存在" FILE_ERROR None)
  | Some (filepath, filename) =>
      emit (Status "parsing" 10 "MinerU解析中...") ;;;
      extracted_content <- parse_document_with_retry (mineru d) ;;
      emit (LogStage "parsing" "completed") ;;;
      when (match total_pages extracted_content with
            | Some n => negb (Z.eqb n 0)
            | None => false
            end) (emit (Results "total_pages")) ;;;
      emit (Status "parsing" 30 "文档解析完成") ;;;
      emit (Status "chunking" 40 "智能分块中...") ;;;
      chunks <- chunk_document_with_retry (chunker d) ;;
      emit (LogStage "chunking" "completed") ;;;
      emit (Results "chunks_count") ;;;
      emit (Status "chunking" 60 ("分块完成，共" ++ nat_to_string (length chunks) ++ "块")) ;;;
      emit (Status "embedding" 70 "向量化中...") ;;;
      embeddings <- generate_embeddings_with_retry (embed_engine d) chunks ;;
      emit (LogStage "embedding" "completed") ;;;
      emit (Status "embedding" 90 "向量化完成") ;;;
      emit (Status "storing" 95 "存储向量中...") ;;;
      store_with_retry (storer d) ;;;
      emit (LogStage "storing" "completed") ;;;
      emit (Status "completed" 100 (completion_message d)) ;;;
      ret (Processed (length chunks))
  end.

(** [process_document(file_id)] with its two [except] clauses;
    [self.retry(...)] raises Celery's [Retry]. *)
Definition process_document (d : doc_input) : M doc_result :=
  catch (process_document_body d) (fun e =>
    match e with
    | NonRetryableError _ _ _ =>
        emit (Status "error" 0 ("❌ 处理失败 (不可重试): " ++ py_str e)) ;;;
        raise e
    | _ =>
        let handled_error := log_and_handle_error lower e "document_processing" in
        emit (Status "error" 0 ("❌ 处理失败: " ++ py_str handled_error)) ;;;
        match handled_error with
        | RetryableError _ _ _ => raise (PyError CeleryRetry "Retry in 60s")
        | _ => raise e
        end
    end).

End Pipeline.

(** The last status written by a trace. *)
Fixpoint last_status (tr : list event) : option (string * Z * string) :=
  match tr with
  | [] => None
  | Status s p m :: tr' =>
      match last_status tr' with
      | Some x => Some x
      | None => Some (s, p, m)
      end
  | _ :: tr' => last_status tr'
  end.

(** Whether a trace calls the wrapped function named [name]. *)
Definition invokes (name : string) (tr : list event) : Prop :=
  exists a, In (Invoke name a) tr.

(** A retry wrapper's trace holds only its own calls and its sleeps. *)
Definition wrapper_trace (name : string) (tr : list event) : Prop :=
  forall ev, In ev tr -> (exists i, ev = Invoke name i) \/ (exists q, ev = Sleep q).

(* ------------------------------------------------------------------ *)
(** ** [TaskErrorTracker.get_error_summary] *)

Record error_summary : Type := mk_error_summary {
  total_errors : nat;
  error_types : list (string * nat);   (** the dict, in insertion order *)
  tasks_with_errors : nat
}.

(** [error_types[t] = error_types.get(t, 0) + 1] over the last 100
    history records. *)
Definition get_error_summary (t : tracker) : error_summary :=
  mk_error_summary
    (length (error_history t))
    (fold_left (fun acc r => count_incr acc (er_error_type r)) (last_n 100 (error_history t)) [])
    (length (error_counts t)).

(* ------------------------------------------------------------------ *)
(** ** The rest of [SQLiteTaskQueue] and [SQLiteTaskWorker] *)

(** [get_task_status(task_id)]: the row, or [None]. *)
Definition get_task_status (task_id : string) (tbl : table) : option task :=
  find_task task_id tbl.

(** The text the code writes into the [status] column. *)
Definition status_name (s : task_status) : string :=
  match s with
  | Pending => "pending"
  | Processing => "processing"
  | Retry => "retry"
  | Completed => "completed"
  | Failed => "failed"
  end.

(** [get_queue_stats()]: [SELECT status, COUNT( * ) ... GROUP BY status]
    read into a dict; the groups are listed in order of first
    appearance. *)
Definition get_queue_stats (tbl : table) : list (string * nat) :=
  fold_left (fun acc t => count_incr acc (status_name (status t))) tbl [].

(** [cleanup_old_tasks(days)] at time [now]:
    [DELETE ... WHERE status IN ('completed', 'failed') AND completed_at < ?]
    with [cutoff = now - timedelta(days=days)]; a NULL [completed_at]
    makes the comparison NULL, so the row stays.  Returns the table and
    [cursor.rowcount]. *)
Definition cleanup_doomed (cutoff : Z) (t : task) : bool :=
  match status t with
  | Completed | Failed =>
      match completed_at t with
      | Some c => Z.ltb c cutoff
      | None => false
      end
  | _ => false
  end.

Definition cleanup_old_tasks (days now : Z) (tbl : table) : table * nat :=
  let cutoff := (now - days * 86400)%Z in
  (filter (fun t => negb (cleanup_doomed cutoff t)) tbl,
   length (filter (cleanup_doomed cutoff) tbl)).

(** One iteration of [SQLiteTaskWorker.start]'s loop: [dequeue()] (its
    SELECT at [now], its UPDATE at [stamp]); on [None] the worker sleeps
    and the table is as it was; otherwise [process_task] at [fin], where
    [outcome q] is what the registered function returns or raises for the
    task [q]. *)
Definition worker_step (registered : string -> bool)
    (outcome : queued_task -> option string + string) (now stamp fin : Z) (tbl : table)
    : option queued_task * table :=
  match dequeue now stamp tbl with
  | (None, tbl') => (None, tbl')
  | (Some q, tbl') => (Some q, process_task registered q (outcome q) fin tbl')
  end.

(** A run of the loop, one [(now, stamp, fin, outcome)] per iteration;
    returns the tasks claimed, in order, and the final table. *)
Fixpoint worker_run (registered : string -> bool)
    (steps : list (Z * Z * Z * (queued_task -> option string + string))) (tbl : table)
    : list queued_task * table :=
  match steps with
  | [] => ([], tbl)
  | (now, stamp, fin, outcome) :: ss =>
      let '(got, tbl1) := worker_step registered outcome now stamp fin tbl in
      let '(gots, tbl2) := worker_run registered ss tbl1 in
      (match got with Some q => q :: gots | None => gots end, tbl2)
  end.

(* ------------------------------------------------------------------ *)
(** ** [fallback_chunking] *)

(** Python text as a list of code points; [str.isspace] on one code
    point is a parameter. *)
Section Chunking.

Variable is_space : N -> bool.

Fixpoint drop_space (s : list N) : list N :=
  match s with
  | [] => []
  | c :: s' => if is_space c then drop_space s' else s
  end.

(** [s.strip()] *)
Definition py_strip (s : list N) : list N := rev (drop_space (rev (drop_space s))).

(** A chunk dict of [fallback_chunking]. *)
Record fb_chunk : Type := mk_fb_chunk {
  fb_title : string;
  fb_content : list N;
  fb_summary : string;
  fb_type : string
}.

(** [content[i:i + chunk_size]] for [i in range(0, len(content), chunk_size)]. *)
Definition chunk_windows (chunk_size : nat) (text : list N) : list (list N) :=
  map (fun k => firstn chunk_size (skipn (k * chunk_size) text))
      (seq 0 ((length text + (chunk_size - 1)) / chunk_size)).

(** The loop body: [if chunk_content.strip(): chunks.append({...})]. *)
Definition fallback_step (chunks : list fb_chunk) (chunk_content : list N) : list fb_chunk :=
  match py_strip chunk_content with
  | [] => chunks
  | stripped =>
      (chunks ++
       [mk_fb_chunk ("文档片段 " ++ nat_to_string (length chunks + 1))
                    stripped
                    ("文档的第" ++ nat_to_string (length chunks + 1) ++ "个片段")
                    "fallback_chunk"])%list
  end.

(** [fallback_chunking(parsed_content)]; [content_field] is
    [parsed_content.get("content")] ([None] when the key is missing). *)
Definition fallback_chunking (content_field : option (list N)) : list fb_chunk :=
  let text := match content_field with Some c => c | None => [] end in
  match py_strip text with
  | [] => []
  | _ => fold_left fallback_step (chunk_windows 1000 text) []
  end.

End Chunking.

(** [str.isspace] on the code points of Python's whitespace table. *)
Definition py_isspace (c : N) : bool :=
  existsb (N.eqb c)
    ([9; 10; 11; 12; 13; 28; 29; 30; 31; 32; 133; 160; 5760; 8192; 8193; 8194; 8195;
     8196; 8197; 8198; 8199; 8200; 8201; 8202; 8232; 8233; 8239; 8287; 12288])%N.

(** The chunk at index [j] of the result, with what the loop puts in it. *)
Definition fb_chunk_ok (is_space : N -> bool) (j : nat) (ch : fb_chunk) : Prop :=
  fb_title ch = "文档片段 " ++ nat_to_string (S j) /\
  fb_summary ch = "文档的第" ++ nat_to_string (S j) ++ "个片段" /\
  fb_type ch = "fallback_chunk" /\
  fb_content ch <> [] /\ length (fb_content ch) <= 1000 /\
  py_strip is_space (fb_content ch) = fb_content ch.

(* ------------------------------------------------------------------ *)
(** ** [store_to_vector_db] *)



(* ------------------------------------------------------------------ *)
(** ** Observations used by the statements *)

(** How many times a trace calls the wrapped function [name]. *)
Definition calls (name : string) (tr : list event) : nat :=
  length (filter (fun ev => match ev with Invoke n _ => String.eqb n name | _ => false end) tr).

(** The total of a list of delays. *)
Definition Qsum (l : list Q) : Q := fold_right Qplus 0%Q l.

(** A sequence of queue operations, applied in order. *)
Definition apply_ops (ops : list queue_op) (tbl : table) : table :=
  fold_left (fun t o => apply_op o t) ops tbl.

(** How many more times the worker loop can claim a row: a claimable
    row ([pending] or [retry]) whose function is registered has its
    remaining retries plus one; an unregistered one fails at its first
    claim; a row in any other status is never claimed. *)
Definition claim_budget (registered : string -> bool) (r : task) : nat :=
  match status r with
  | Pending | Retry =>
      if registered (task_name r) then Z.to_nat (max_retries r - retry_count r) + 1 else 1
  | _ => 0
  end.

(** The claim budget of the row with id [i], [0] when there is none. *)
Definition row_budget (registered : string -> bool) (i : string) (tbl : table) : nat :=
  match find_task i tbl with
  | Some r => claim_budget registered r
  | None => 0
  end.

(* ================================================================== *)
(** * Properties *)

(* ------------------------------------------------------------------ *)
(** ** The retry wrapper *)

Lemma seq_split_first (a k : nat) :
  a < k -> seq a (k - a) = a :: seq (S a) (k - S a).
Proof. intros H. replace (k - a) with (S (k - S a)) by lia. reflexivity. Qed.

Lemma retry_loop_run {A} (name : string) (func : nat -> A + exn)
    (mr : Z) (bd md bf : Q) :
  forall fuel a last,
    (Z.of_nat a + Z.of_nat fuel = mr + 1)%Z -> fuel <> 0 ->
    exists k, a <= k /\ (Z.of_nat k <= mr)%Z /\
      (forall i, a <= i < k -> exists e, func i = inr e /\ is_retryable_exc e = true) /\
      retry_loop name func mr bd md bf fuel a last =
        ((flat_map (fun i => [Invoke name i; Sleep (backoff_delay bd md bf i)])
                   (seq a (k - a)) ++ [Invoke name k])%list,
         retry_final (func k)) /\
      (forall e, func k = inr e -> is_retryable_exc e = true -> Z.of_nat k = mr).
Proof.
  induction fuel as [|fuel IH]; intros a last Hsum Hf; [congruence|].
  cbn [retry_loop]; unfold bind, emit.
  destruct (func a) as [v|e] eqn:Hfa.
  - exists a. rewrite Nat.sub_diag. unfold retry_final; rewrite Hfa.
    repeat split; try lia; try congruence.
  - destruct (is_retryable_exc e) eqn:Hr.
    + destruct (Z.eqb_spec (Z.of_nat a) mr) as [Heq|Hne].
      * exists a. rewrite Nat.sub_diag. unfold retry_final; rewrite Hfa, Hr.
        repeat split; try lia; try congruence.
      * destruct fuel as [|fuel']; [lia|].
        destruct (IH (S a) (Some e)) as [k [Hak [Hkm [Hpre [Hrun Hlast]]]]];
          [lia|congruence|].
        exists k. rewrite Hrun, (seq_split_first a k) by lia.
        repeat split; try lia; auto.
        intros i Hi. destruct (Nat.eq_dec i a) as [->|Hia].
        { exists e; auto. }
        apply Hpre; lia.
    + exists a. rewrite Nat.sub_diag. unfold retry_final; rewrite Hfa, Hr.
      split; [lia|]. split; [lia|]. split; [intros; lia|]. split.
      * destruct e; reflexivity.
      * intros e' He' Hr'. inversion He'; subst; congruence.
Qed.

(** C1: for a wrapped callable [func], the run of [retry_with_backoff]
    is: [k] calls that raised a retryable failure, each followed by a
    sleep of the computed delay and a new call, then a last call [k].
    Nothing is called after call [k]; its outcome decides the result:
    a return value is returned, a retryable failure is re-raised (and then
    [k] is the last allowed attempt, [max_retries]), a
    [NonRetryableError] is raised as it is, and any other failure is
    raised as a [NonRetryableError] of kind [UNKNOWN_ERROR] wrapping it.
    The run always ends in a value or a raised exception. *)
Theorem retry_with_backoff_contract {A} (name : string) (func : nat -> A + exn)
    (max_retries : Z) (base_delay max_delay backoff_factor : Q)
    (Hm : (0 <= max_retries)%Z) :
  exists k, k <= Z.to_nat max_retries /\
    (forall i, i < k -> exists e, func i = inr e /\ is_retryable_exc e = true) /\
    retry_with_backoff name func max_retries base_delay max_delay backoff_factor =
      ((retry_prefix name (backoff_delay base_delay max_delay backoff_factor) k
        ++ [Invoke name k])%list,
       retry_final (func k)) /\
    (forall e, func k = inr e -> is_retryable_exc e = true -> k = Z.to_nat max_retries) /\
    (forall v, snd (retry_with_backoff name func max_retries base_delay max_delay backoff_factor)
               = inl v -> func k = inl v).
Proof.
  unfold retry_with_backoff.
  destruct (retry_loop_run name func max_retries base_delay max_delay backoff_factor
              (Z.to_nat (max_retries + 1)) 0 None) as [k [_ [Hkm [Hpre [Hrun Hlast]]]]];
    [lia|lia|].
  exists k. rewrite Nat.sub_0_r in Hrun.
  split; [lia|]. split; [intros i Hi; apply Hpre; lia|]. split; [exact Hrun|].
  split.
  - intros e He Hr. specialize (Hlast e He Hr). lia.
  - rewrite Hrun. simpl. unfold retry_final.
    destruct (func k) as [v'|e]; [congruence|].
    destruct (is_retryable_exc e); [discriminate|]. destruct e; discriminate.
Qed.

(* ------------------------------------------------------------------ *)
(** ** The backoff delay *)

Lemma qpow_Qpower (f : Q) (n : nat) : (qpow f n == f ^ Z.of_nat n)%Q.
Proof.
  induction n as [|n IH]; [reflexivity|].
  rewrite Nat2Z.inj_succ, <- Z.add_1_r, Qpower_plus' by lia.
  cbn [qpow]. rewrite IH, Qpower_1_r. apply Qmult_comm.
Qed.

Lemma py_min_Qmin (a b : Q) : (py_min a b == Qmin a b)%Q.
Proof.
  unfold py_min. destruct (Qle_bool a b) eqn:H.
  - apply Qle_bool_iff in H. symmetry. apply Q.min_l; exact H.
  - assert (Hba : (b <= a)%Q).
    { apply Qlt_le_weak, Qnot_le_lt. intros Hab. apply Qle_bool_iff in Hab. congruence. }
    symmetry. apply Q.min_r; exact Hba.
Qed.

Lemma qpow_nonneg (f : Q) (n : nat) : (0 <= f)%Q -> (0 <= qpow f n)%Q.
Proof.
  intros Hf. induction n as [|n IH]; cbn [qpow]; [lra|].
  apply Qmult_le_0_compat; assumption.
Qed.

Lemma qpow_step (f : Q) (n : nat) : (1 <= f)%Q -> (qpow f n <= qpow f (S n))%Q.
Proof.
  intros Hf. cbn [qpow]. pose proof (qpow_nonneg f n ltac:(lra)). nra.
Qed.

Lemma qpow_mono (f : Q) (n m : nat) : (1 <= f)%Q -> n <= m -> (qpow f n <= qpow f m)%Q.
Proof.
  intros Hf Hnm. induction Hnm as [|m Hnm IH]; [apply Qle_refl|].
  eapply Qle_trans; [exact IH|]. apply qpow_step; exact Hf.
Qed.

Lemma py_min_mono_l (a a' b : Q) : (a <= a')%Q -> (py_min a b <= py_min a' b)%Q.
Proof.
  intros H. rewrite !py_min_Qmin. apply Q.min_le_compat_r; exact H.
Qed.

Lemma sleeps_app (t1 t2 : list event) : sleeps (t1 ++ t2)%list = (sleeps t1 ++ sleeps t2)%list.
Proof. induction t1 as [|[] t1 IH]; simpl; rewrite ?IH; reflexivity. Qed.

Lemma sleeps_retry_prefix (name : string) (delay : nat -> Q) (k : nat) :
  sleeps (retry_prefix name delay k) = map delay (seq 0 k).
Proof.
  unfold retry_prefix. induction k as [|k IH]; [reflexivity|].
  rewrite seq_S, flat_map_app, map_app, sleeps_app, IH. reflexivity.
Qed.

(** C4: the delay of attempt [n] is [min(base_delay * backoff_factor ** n,
    max_delay)] (Python's [min], which is [Qmin]); it does not decrease
    as [n] grows; and the sleeps of any run of the wrapper are the delays
    of attempts [0, 1, 2, ...] in this order. *)
Theorem backoff_delay_spec (base_delay max_delay backoff_factor : Q)
    (Hbase : (0 < base_delay)%Q) (Hfactor : (1 <= backoff_factor)%Q) (Hmax : (0 < max_delay)%Q) :
  (forall n, (backoff_delay base_delay max_delay backoff_factor n
              == Qmin (base_delay * backoff_factor ^ Z.of_nat n) max_delay)%Q) /\
  (forall n m, n <= m ->
     (backoff_delay base_delay max_delay backoff_factor n
      <= backoff_delay base_delay max_delay backoff_factor m)%Q) /\
  (forall (A : Type) (name : string) (func : nat -> A + exn) (max_retries : Z),
     let tr := fst (retry_with_backoff name func max_retries base_delay max_delay backoff_factor) in
     sleeps tr = map (backoff_delay base_delay max_delay backoff_factor) (seq 0 (length (sleeps tr)))).
Proof.
  split; [|split].
  - intros n. unfold backoff_delay. rewrite py_min_Qmin, qpow_Qpower. reflexivity.
  - intros n m Hnm. unfold backoff_delay. apply py_min_mono_l.
    pose proof (qpow_mono backoff_factor n m Hfactor Hnm). nra.
  - intros A name func max_retries tr. subst tr.
    destruct (Z_lt_le_dec max_retries 0) as [Hneg|Hpos].
    + unfold retry_with_backoff. replace (Z.to_nat (max_retries + 1)) with 0 by lia.
      reflexivity.
    + destruct (retry_with_backoff_contract name func max_retries base_delay max_delay
                  backoff_factor Hpos) as [k [_ [_ [Hrun _]]]].
      rewrite Hrun. cbn [fst]. rewrite sleeps_app, sleeps_retry_prefix.
      simpl. rewrite app_nil_r, length_map, length_seq. reflexivity.
Qed.

(* ------------------------------------------------------------------ *)
(** ** Classification *)

Ltac split_ifs :=
  repeat match goal with
         | |- context [if ?b then _ else _] => destruct b
         end.

(** A message that matches no keyword, as [log_and_handle_error] sees it. *)
Definition matches_no_keyword (lower : string -> string) (kws : list string) (e : exn) : Prop :=
  Forall (fun k => contains k (lower (py_str e)) = false) kws.

(** C5 (counterexample): the message "boom" of a plain exception
    matches none of the keywords, yet it is classified as a retryable
    error (of kind [UNKNOWN_ERROR]). *)
Lemma unmatched_message_is_retryable :
  matches_no_keyword ascii_lower classifier_keywords (PyError OtherException "boom") /\
  verdict (log_and_handle_error ascii_lower (PyError OtherException "boom") "parsing")
    = Some (true, UNKNOWN_ERROR).
Proof.
  split; [|reflexivity].
  unfold matches_no_keyword, classifier_keywords, dispatch_keywords.
  repeat constructor.
Qed.

(** C5 (amended): whatever [str.lower] does, an exception whose lowered
    message contains none of the keywords [log_and_handle_error]
    dispatches on is classified as the [RetryableError] of kind
    [UNKNOWN_ERROR] with message ["未分类错误: " + str(e)] wrapping it:
    a failure returned to the caller (every stage body raises it), which
    the retry wrapper treats as retryable. *)
Theorem unmatched_message_classified_unknown_retryable
    (lower : string -> string) (e : exn) (context : string)
    (Hno : matches_no_keyword lower dispatch_keywords e) :
  log_and_handle_error lower e context
    = RetryableError ("未分类错误: " ++ py_str e) UNKNOWN_ERROR (Some e) /\
  verdict (log_and_handle_error lower e context) = Some (true, UNKNOWN_ERROR) /\
  is_retryable_exc (log_and_handle_error lower e context) = true.
Proof.
  unfold matches_no_keyword, dispatch_keywords in Hno.
  repeat match goal with
         | H : Forall _ (_ :: _) |- _ => inversion H; subst; clear H
         end.
  unfold log_and_handle_error.
  repeat match goal with
         | H : contains _ _ = false |- _ => rewrite H; clear H
         end.
  simpl. auto.
Qed.

(** C6 (counterexample): a [NonRetryableError] of kind [FILE_ERROR]
    comes out of the classifier as a retryable error of kind
    [UNKNOWN_ERROR]. *)
Lemma typed_error_reclassified :
  verdict (NonRetryableError "boom" FILE_ERROR None) = Some (false, FILE_ERROR) /\
  verdict (log_and_handle_error ascii_lower (NonRetryableError "boom" FILE_ERROR None) "storing")
    = Some (true, UNKNOWN_ERROR).
Proof. split; reflexivity. Qed.

(** C6 (amended): the classifier ignores the verdict and kind an error
    already carries: a [RetryableError] or [NonRetryableError] gets the
    verdict, kind and message that a plain exception with the same
    message gets. *)
Theorem typed_error_classified_by_message
    (lower : string -> string) (e : exn) (context : string)
    (Htyped : verdict e <> None) :
  verdict (log_and_handle_error lower e context)
    = verdict (log_and_handle_error lower (PyError OtherException (py_str e)) context) /\
  py_str (log_and_handle_error lower e context)
    = py_str (log_and_handle_error lower (PyError OtherException (py_str e)) context).
Proof.
  destruct e as [m k o|m k o|c t]; [| |simpl in Htyped; congruence];
  unfold log_and_handle_error, handle_api_error, handle_file_error,
    handle_database_error, handle_parsing_error; cbn [py_str is_oserror];
  split_ifs; split; reflexivity.
Qed.

(* ------------------------------------------------------------------ *)
(** ** The error tracker *)

Lemma record_error_history (t : tracker) (tid : string) (e : exn) (now : Z) :
  error_history (record_error t tid e now)
  = let h := (error_history t ++ [record_of (tid, e, now)])%list in
    if Nat.ltb 1000 (length h) then last_n 500 h else h.
Proof. reflexivity. Qed.

Lemma length_last_n {X} (n : nat) (l : list X) : length (last_n n l) = Nat.min n (length l).
Proof. unfold last_n. rewrite length_skipn. lia. Qed.

Lemma record_error_bounded (t : tracker) (tid : string) (e : exn) (now : Z) :
  length (error_history t) <= 1000 ->
  length (error_history (record_error t tid e now)) <= 1000.
Proof.
  intros H. rewrite record_error_history. cbv zeta.
  destruct (Nat.ltb_spec 1000 (length (error_history t ++ [record_of (tid, e, now)])%list)).
  - rewrite length_last_n. lia.
  - lia.
Qed.

Lemma record_all_bounded (t : tracker) (calls : list (string * exn * Z)) :
  length (error_history t) <= 1000 ->
  length (error_history (record_all t calls)) <= 1000.
Proof.
  revert t. induction calls as [|[[tid e] now] cs IH]; intros t H; simpl; auto.
  apply IH, record_error_bounded, H.
Qed.

Lemma record_all_app (t : tracker) (c1 c2 : list (string * exn * Z)) :
  record_all t (c1 ++ c2)%list = record_all (record_all t c1) c2.
Proof.
  revert t. induction c1 as [|[[tid e] now] cs IH]; intros t; simpl; auto.
Qed.

Lemma record_all_no_trim (t : tracker) (calls : list (string * exn * Z)) :
  length (error_history t) + length calls <= 1000 ->
  error_history (record_all t calls) = (error_history t ++ map record_of calls)%list.
Proof.
  revert t. induction calls as [|[[tid e] now] cs IH]; intros t H; simpl.
  - rewrite app_nil_r. reflexivity.
  - simpl in H. rewrite IH.
    + rewrite record_error_history. cbv zeta.
      destruct (Nat.ltb_spec 1000 (length (error_history t ++ [record_of (tid, e, now)])%list))
        as [Hlt|_].
      * rewrite length_app in Hlt. simpl in Hlt. lia.
      * rewrite <- app_assoc. reflexivity.
    + rewrite record_error_history. cbv zeta.
      destruct (Nat.ltb_spec 1000 (length (error_history t ++ [record_of (tid, e, now)])%list))
        as [Hlt|_].
      * rewrite length_app in Hlt. simpl in Hlt. lia.
      * rewrite length_app. simpl. lia.
Qed.

(** C8: starting from the empty tracker, the history never has more than
    1000 entries after a [record_error] call, and the 1001st call trims it
    to exactly the 500 most recent records. *)
Theorem error_history_bounded_and_trimmed :
  (forall calls, length (error_history (record_all empty_tracker calls)) <= 1000) /\
  (forall calls, length calls = 1001 ->
     error_history (record_all empty_tracker calls) = last_n 500 (map record_of calls) /\
     length (error_history (record_all empty_tracker calls)) = 500).
Proof.
  split.
  - intros calls. apply record_all_bounded. simpl. lia.
  - intros calls Hlen.
    destruct (exists_last (l := calls)) as [c1 [c Hc]]; [destruct calls; simpl in Hlen; congruence|].
    assert (Hassert : error_history (record_all empty_tracker calls) = last_n 500 (map record_of calls)).
    { rewrite Hc in Hlen |- *. rewrite length_app in Hlen. simpl in Hlen.
      rewrite record_all_app. destruct c as [[tid e] now]. cbn [record_all].
      rewrite record_error_history, record_all_no_trim by (simpl; lia).
      simpl. rewrite map_app. simpl.
      rewrite (proj2 (Nat.ltb_lt _ _)) by (rewrite length_app, length_map; simpl; lia).
      reflexivity. }
    split; [exact Hassert|]. rewrite Hassert, length_last_n, length_map. lia.
Qed.

(* ------------------------------------------------------------------ *)
(** ** The task table *)

Lemma map_id_update_where (i : string) (f : task -> task) (tbl : table) :
  (forall t, id (f t) = id t) -> map id (update_where i f tbl) = map id tbl.
Proof.
  intros Hf. induction tbl as [|t ts IH]; simpl; [reflexivity|].
  rewrite IH. destruct (String.eqb (id t) i); rewrite ?Hf; reflexivity.
Qed.

Lemma find_task_update_where (i : string) (f : task -> task) (tbl : table) :
  (forall t, id (f t) = id t) ->
  find_task i (update_where i f tbl) = option_map f (find_task i tbl).
Proof.
  intros Hf. induction tbl as [|t ts IH]; simpl; [reflexivity|].
  destruct (String.eqb_spec (id t) i) as [E|E]; simpl; rewrite ?Hf.
  - rewrite (proj2 (String.eqb_eq _ _) E). reflexivity.
  - destruct (String.eqb_spec (id t) i); [congruence|exact IH].
Qed.

Lemma find_task_some (i : string) (tbl : table) (r : task) :
  find_task i tbl = Some r -> In r tbl /\ id r = i.
Proof.
  induction tbl as [|t ts IH]; simpl; [discriminate|].
  destruct (String.eqb_spec (id t) i) as [E|E].
  - intros [= <-]. auto.
  - intros H. destruct (IH H). auto.
Qed.

Lemma find_task_none (i : string) (tbl : table) :
  find_task i tbl = None -> forall t, In t tbl -> id t <> i.
Proof.
  induction tbl as [|t ts IH]; simpl; [tauto|].
  destruct (String.eqb_spec (id t) i) as [E|E]; [discriminate|].
  intros H t' [<-|Hin]; auto.
Qed.

Lemma nodup_same_id (tbl : table) (t1 t2 : task) :
  NoDup (map id tbl) -> In t1 tbl -> In t2 tbl -> id t1 = id t2 -> t1 = t2.
Proof.
  induction tbl as [|t ts IH]; simpl; [tauto|].
  intros Hnd H1 H2 Heq. inversion Hnd as [|x xs Hnot Hnd']; subst.
  destruct H1 as [<-|H1]; destruct H2 as [<-|H2]; auto.
  - exfalso. apply Hnot. rewrite Heq. apply in_map. exact H2.
  - exfalso. apply Hnot. rewrite <- Heq. apply in_map. exact H1.
Qed.

Lemma Forall_update_where (P : task -> Prop) (i : string) (f : task -> task) (tbl : table) :
  Forall P tbl -> (forall t, In t tbl -> id t = i -> P (f t)) ->
  Forall P (update_where i f tbl).
Proof.
  intros HP Hf. unfold update_where. apply Forall_map.
  rewrite Forall_forall in HP |- *. intros t Hin.
  destruct (String.eqb_spec (id t) i); auto.
Qed.

Lemma In_update_where (i : string) (f : task -> task) (tbl : table) (t' : task) :
  In t' (update_where i f tbl) ->
  exists t, In t tbl /\ t' = if String.eqb (id t) i then f t else t.
Proof. unfold update_where. rewrite in_map_iff. intros [t [<- Hin]]. eauto. Qed.

Lemma oldest_claimable_spec (now : Z) (tbl : table) :
  forall best,
  (forall b, best = Some b -> claimable now b = true) ->
  match oldest_claimable now best tbl with
  | None => best = None /\ (forall t, In t tbl -> claimable now t = false)
  | Some r =>
      claimable now r = true /\ (best = Some r \/ In r tbl) /\
      (forall t, In t tbl -> claimable now t = true -> (created_at r <= created_at t)%Z) /\
      (forall b, best = Some b -> (created_at r <= created_at b)%Z)
  end.
Proof.
  induction tbl as [|t ts IH]; intros best Hbest; simpl.
  - destruct best as [b|]; [|split; [reflexivity|intros _ []]].
    split; [apply Hbest; reflexivity|]. split; [left; reflexivity|].
    split; [tauto|]. intros b' [= <-]. lia.
  - destruct (claimable now t) eqn:Ht.
    + destruct best as [b|].
      * destruct (Z.ltb_spec (created_at t) (created_at b)) as [Hlt|Hge].
        -- specialize (IH (Some t) ltac:(intros b' [= <-]; exact Ht)).
           destruct (oldest_claimable now (Some t) ts) as [r|]; [|destruct IH; discriminate].
           destruct IH as [Hr [Hin [Hmin Hb]]].
           split; [exact Hr|]. split.
           { right. destruct Hin as [[= <-]|Hin]; auto. }
           split.
           { intros t' [<-|Hin'] Hc; [apply Hb; reflexivity|apply Hmin; auto]. }
           intros b' [= <-]. specialize (Hb t eq_refl). lia.
        -- specialize (IH (Some b) Hbest).
           destruct (oldest_claimable now (Some b) ts) as [r|]; [|destruct IH; discriminate].
           destruct IH as [Hr [Hin [Hmin Hb]]].
           split; [exact Hr|]. split; [destruct Hin; auto|].
           split; [|exact Hb].
           intros t' [<-|Hin'] Hc; [specialize (Hb b eq_refl); lia|apply Hmin; auto].
      * specialize (IH (Some t) ltac:(intros b' [= <-]; exact Ht)).
        destruct (oldest_claimable now (Some t) ts) as [r|]; [|destruct IH; discriminate].
        destruct IH as [Hr [Hin [Hmin Hb]]].
        split; [exact Hr|]. split.
        { right. destruct Hin as [[= <-]|Hin]; auto. }
        split; [|discriminate].
        intros t' [<-|Hin'] Hc; [apply Hb; reflexivity|apply Hmin; auto].
    + specialize (IH best Hbest).
      destruct (oldest_claimable now best ts) as [r|].
      * destruct IH as [Hr [Hin [Hmin Hb]]].
        split; [exact Hr|]. split; [destruct Hin; auto|]. split; [|exact Hb].
        intros t' [<-|Hin'] Hc; [congruence|apply Hmin; auto].
      * destruct IH as [Hn Hall]. split; [exact Hn|].
        intros t' [<-|Hin']; auto.
Qed.

Lemma claimable_next (now : Z) (t : task) :
  claimable now t = true ->
  (status t = Pending \/ status t = Retry) /\
  (next_retry_at t = None \/ exists n, next_retry_at t = Some n /\ (n <= now)%Z).
Proof.
  unfold claimable. intros H.
  assert (Hn : next_retry_at t = None \/ exists n, next_retry_at t = Some n /\ (n <= now)%Z).
  { destruct (next_retry_at t) as [n|]; [right; exists n|left; reflexivity].
    split; [reflexivity|]. destruct (status t); try discriminate; apply Z.leb_le; exact H. }
  split; [|exact Hn]. destruct (status t); try discriminate; auto.
Qed.

(** C3: [dequeue] returns, among the claimable rows (status pending or
    retry, [next_retry_at] null or not after [now]), one with the least
    [created_at], marks it [processing] with [started_at] stamped (the
    other rows are left as they are), and returns its fields; when no row
    is claimable it returns [None] and leaves the table unchanged. *)
Theorem dequeue_spec (now stamp : Z) (tbl : table) :
  match dequeue now stamp tbl with
  | (None, tbl') => tbl' = tbl /\ (forall t, In t tbl -> claimable now t = false)
  | (Some q, tbl') =>
      exists r, In r tbl /\ claimable now r = true /\
        (status r = Pending \/ status r = Retry) /\
        (next_retry_at r = None \/ exists n, next_retry_at r = Some n /\ (n <= now)%Z) /\
        (forall t, In t tbl -> claimable now t = true -> (created_at r <= created_at t)%Z) /\
        q = queued_of r /\
        tbl' = update_where (id r) (mark_processing stamp) tbl /\
        (forall t', In t' tbl' -> id t' = id r ->
                    status t' = Processing /\ started_at t' = Some stamp)
  end.
Proof.
  unfold dequeue.
  pose proof (oldest_claimable_spec now tbl None ltac:(discriminate)) as H.
  destruct (oldest_claimable now None tbl) as [r|].
  - destruct H as [Hr [[Hn|Hin] [Hmin _]]]; [discriminate|].
    exists r. destruct (claimable_next now r Hr) as [Hs Hnx].
    assert (Hmark : forall t', In t' (update_where (id r) (mark_processing stamp) tbl) ->
                    id t' = id r -> status t' = Processing /\ started_at t' = Some stamp).
    { intros t' Hin' Hid. apply In_update_where in Hin' as [t [_ Ht']].
      destruct (String.eqb_spec (id t) (id r)); subst t'; [split; reflexivity|].
      simpl in Hid. congruence. }
    repeat (split; [solve [auto]|]). exact Hmark.
  - destruct H as [_ Hall]. auto.
Qed.

Lemma queue_wf_update_where (i : string) (f : task -> task) (tbl : table) :
  (forall t, id (f t) = id t) ->
  (forall t, In t tbl -> id t = i -> (0 <= retry_count (f t) <= max_retries (f t))%Z) ->
  queue_wf tbl -> queue_wf (update_where i f tbl).
Proof.
  intros Hid Hf [Hnd Hb]. split.
  - rewrite map_id_update_where by exact Hid. exact Hnd.
  - apply Forall_update_where; assumption.
Qed.

Lemma fail_task_found (i msg : string) (retry : bool) (now : Z) (tbl : table) (row : task) :
  find_task i tbl = Some row ->
  find_task i (fail_task i msg retry now tbl)
  = Some (if retry && Z.ltb (retry_count row) (max_retries row)
          then set_retry (retry_count row) msg now row
          else set_failed msg row).
Proof.
  intros H. unfold fail_task. rewrite H.
  destruct (retry && Z.ltb (retry_count row) (max_retries row));
    rewrite find_task_update_where, H by reflexivity; reflexivity.
Qed.

Lemma apply_op_wf (o : queue_op) (tbl : table) : queue_wf tbl -> queue_wf (apply_op o tbl).
Proof.
  intros Hwf. destruct o as [i n a kw now|now stamp|i r now|i m r now]; simpl.
  - unfold enqueue. destruct (existsb (fun t => String.eqb (id t) i) tbl) eqn:Hex; [exact Hwf|].
    destruct Hwf as [Hnd Hb]. split.
    + rewrite map_app. apply NoDup_app; [exact Hnd|repeat constructor; simpl; tauto|].
      intros x Hx [Hxi|[]]. simpl in Hxi. subst x.
      apply in_map_iff in Hx as [t [Hti Hin]].
      assert (Hc : existsb (fun t => String.eqb (id t) i) tbl = true).
      { apply existsb_exists. exists t. split; [exact Hin|]. apply String.eqb_eq. exact Hti. }
      congruence.
    + apply Forall_app. split; [exact Hb|]. repeat constructor; simpl; lia.
  - unfold dequeue. destruct (oldest_claimable now None tbl) as [t|]; simpl; [|exact Hwf].
    apply queue_wf_update_where; [reflexivity| |exact Hwf].
    intros t' Hin _. destruct Hwf as [_ Hb]. rewrite Forall_forall in Hb. exact (Hb t' Hin).
  - unfold complete_task. apply queue_wf_update_where; [reflexivity| |exact Hwf].
    intros t' Hin _. destruct Hwf as [_ Hb]. rewrite Forall_forall in Hb. exact (Hb t' Hin).
  - unfold fail_task. destruct (find_task i tbl) as [row|] eqn:Hf; [|exact Hwf].
    destruct (find_task_some i tbl row Hf) as [Hrin Hrid].
    destruct (r && Z.ltb (retry_count row) (max_retries row)) eqn:Hc.
    + apply queue_wf_update_where; [reflexivity| |exact Hwf].
      intros t Hin Hti.
      assert (t = row) as ->.
      { apply (nodup_same_id tbl); [apply Hwf|exact Hin|exact Hrin|congruence]. }
      apply andb_true_iff in Hc as [_ Hlt]. apply Z.ltb_lt in Hlt.
      destruct Hwf as [_ Hb]. rewrite Forall_forall in Hb. specialize (Hb row Hrin).
      simpl. lia.
    + apply queue_wf_update_where; [reflexivity| |exact Hwf].
      intros t' Hin _. destruct Hwf as [_ Hb]. rewrite Forall_forall in Hb. exact (Hb t' Hin).
Qed.

Lemma find_task_wf (i : string) (tbl : table) (row : task) :
  queue_wf tbl -> find_task i tbl = Some row -> (0 <= retry_count row <= max_retries row)%Z.
Proof.
  intros [_ Hb] Hf. destruct (find_task_some i tbl row Hf) as [Hin _].
  rewrite Forall_forall in Hb. apply Hb, Hin.
Qed.

(** C2 (counterexample): a freshly enqueued task (retry_count 0,
    max_retries 3) that fails with [retry=False], as the worker does for
    an unregistered task name, becomes [failed] although its
    retry_count is not its max_retries. *)
Lemma fail_without_retry_fails_early :
  let tbl := fail_task "t" "x" false 5 (enqueue "t" "job" "[]" "{}" 0 []) in
  option_map status (find_task "t" tbl) = Some Failed /\
  option_map retry_count (find_task "t" tbl) = Some 0%Z /\
  option_map max_retries (find_task "t" tbl) = Some 3%Z.
Proof. repeat split. Qed.

(** C2 (amended): every queue operation keeps ids unique and
    [0 <= retry_count <= max_retries]; [enqueue] stores
    [max_retries = 3] (a [max_retries] keyword is stored among the
    kwargs); a [fail_task] with retry allowed and
    [retry_count < max_retries] sets status [retry], increments
    retry_count and sets [next_retry_at = now + 2 ** retry_count]
    minutes, so that two such calls (at non-decreasing times) give
    increasing [next_retry_at]; with retry allowed the task becomes
    [failed] exactly when [retry_count = max_retries]; with retry
    disabled it becomes [failed] whatever its retry_count.  For a task
    with max_retries 2, two fail calls give [retry] with increasing
    [next_retry_at] and the third gives [failed]. *)
Theorem fail_task_contract :
  (forall o tbl, queue_wf tbl -> queue_wf (apply_op o tbl)) /\
  (forall i n a kw now tbl, find_task i tbl = None ->
     exists row, find_task i (enqueue i n a kw now tbl) = Some row /\
       status row = Pending /\ retry_count row = 0%Z /\ max_retries row = 3%Z) /\
  (forall tbl i msg now row, find_task i tbl = Some row ->
     (retry_count row < max_retries row)%Z ->
     exists row', find_task i (fail_task i msg true now tbl) = Some row' /\
       status row' = Retry /\ retry_count row' = (retry_count row + 1)%Z /\
       next_retry_at row' = Some (now + 60 * 2 ^ retry_count row)%Z) /\
  (forall tbl i m1 m2 now1 now2 row, queue_wf tbl -> find_task i tbl = Some row ->
     (retry_count row + 1 < max_retries row)%Z -> (now1 <= now2)%Z ->
     let tbl1 := fail_task i m1 true now1 tbl in
     let tbl2 := fail_task i m2 true now2 tbl1 in
     exists n1 n2, option_map next_retry_at (find_task i tbl1) = Some (Some n1) /\
       option_map next_retry_at (find_task i tbl2) = Some (Some n2) /\ (n1 < n2)%Z) /\
  (forall tbl i msg now row, queue_wf tbl -> find_task i tbl = Some row ->
     (option_map status (find_task i (fail_task i msg true now tbl)) = Some Failed
      <-> retry_count row = max_retries row)) /\
  (forall tbl i msg now row, find_task i tbl = Some row ->
     option_map status (find_task i (fail_task i msg false now tbl)) = Some Failed) /\
  (forall tbl i now1 now2 now3 row, find_task i tbl = Some row ->
     retry_count row = 0%Z -> max_retries row = 2%Z ->
     (now1 <= now2)%Z ->
     let tbl1 := fail_task i "x" true now1 tbl in
     let tbl2 := fail_task i "x" true now2 tbl1 in
     let tbl3 := fail_task i "x" true now3 tbl2 in
     option_map status (find_task i tbl1) = Some Retry /\
     option_map status (find_task i tbl2) = Some Retry /\
     option_map status (find_task i tbl3) = Some Failed /\
     exists n1 n2, option_map next_retry_at (find_task i tbl1) = Some (Some n1) /\
       option_map next_retry_at (find_task i tbl2) = Some (Some n2) /\ (n1 < n2)%Z).
Proof.
  split; [exact apply_op_wf|].
  split.
  { intros i n a kw now tbl Hnone. unfold enqueue.
    assert (Hex : existsb (fun t => String.eqb (id t) i) tbl = false).
    { destruct (existsb _ tbl) eqn:E; [|reflexivity].
      apply existsb_exists in E as [t [Hin Heq]]. apply String.eqb_eq in Heq.
      exfalso. exact (find_task_none i tbl Hnone t Hin Heq). }
    rewrite Hex. exists (new_task i n a kw now).
    split; [|repeat split].
    clear Hex. induction tbl as [|t ts IH]; simpl in *.
    - rewrite String.eqb_refl. reflexivity.
    - destruct (String.eqb (id t) i); [discriminate|]. apply IH, Hnone. }
  split.
  { intros tbl i msg now row Hf Hlt. rewrite (fail_task_found _ _ _ _ _ row Hf).
    apply Z.ltb_lt in Hlt. simpl. rewrite Hlt. eexists; repeat split. }
  split.
  { intros tbl i m1 m2 now1 now2 row Hwf Hf Hlt Hle tbl1 tbl2. subst tbl1 tbl2.
    rewrite (fail_task_found _ _ _ _ _ row Hf).
    assert (E1 : Z.ltb (retry_count row) (max_retries row) = true) by (apply Z.ltb_lt; lia).
    simpl. rewrite E1.
    rewrite (fail_task_found _ _ _ _ _ (set_retry (retry_count row) m1 now1 row)).
    2:{ rewrite (fail_task_found _ _ _ _ _ row Hf). simpl. rewrite E1. reflexivity. }
    assert (E2 : Z.ltb (retry_count row + 1) (max_retries row) = true) by (apply Z.ltb_lt; lia).
    simpl. rewrite E2. simpl.
    pose proof (find_task_wf i tbl row Hwf Hf).
    do 2 eexists. split; [reflexivity|]. split; [reflexivity|].
    unfold retry_backoff. rewrite Z.pow_add_r by lia. nia. }
  split.
  { intros tbl i msg now row Hwf Hf. rewrite (fail_task_found _ _ _ _ _ row Hf).
    pose proof (find_task_wf i tbl row Hwf Hf). simpl.
    destruct (Z.ltb_spec (retry_count row) (max_retries row)); simpl;
      split; intros; try discriminate; try reflexivity; lia. }
  split.
  { intros tbl i msg now row Hf. rewrite (fail_task_found _ _ _ _ _ row Hf). reflexivity. }
  { intros tbl i now1 now2 now3 row Hf H0 H2 Hle tbl1 tbl2 tbl3. subst tbl1 tbl2 tbl3.
    assert (F1 : find_task i (fail_task i "x" true now1 tbl)
                 = Some (set_retry 0 "x" now1 row)).
    { rewrite (fail_task_found _ _ _ _ _ row Hf), H0, H2. reflexivity. }
    assert (F2 : find_task i (fail_task i "x" true now2 (fail_task i "x" true now1 tbl))
                 = Some (set_retry 1 "x" now2 (set_retry 0 "x" now1 row))).
    { rewrite (fail_task_found _ _ _ _ _ _ F1). simpl. rewrite H2. reflexivity. }
    assert (F3 : option_map status
                   (find_task i (fail_task i "x" true now3
                      (fail_task i "x" true now2 (fail_task i "x" true now1 tbl))))
                 = Some Failed).
    { rewrite (fail_task_found _ _ _ _ _ _ F2). simpl. rewrite H2. reflexivity. }
    rewrite F3, F2, F1. split; [reflexivity|]. split; [reflexivity|]. split; [reflexivity|].
    do 2 eexists. split; [reflexivity|]. split; [reflexivity|].
    unfold retry_backoff. simpl. lia. }
Qed.

(* ------------------------------------------------------------------ *)
(** ** Concurrent claims *)

Definition got (p : phase) : nat := match p with Done (Some _) => 1 | _ => 0 end.

Lemma count_got_upd (ph : nat -> phase) (i : nat) (p : phase) (n : nat) :
  i < n -> count_got (upd ph i p) n + got (ph i) = count_got ph n + got p.
Proof.
  induction n as [|n IH]; intros Hi; [lia|]. simpl. unfold upd at 2.
  destruct (Nat.eqb_spec n i) as [->|Hne].
  - assert (Hsame : count_got (upd ph i p) i = count_got ph i).
    { clear IH Hi. assert (forall k, k <= i -> count_got (upd ph i p) k = count_got ph k) as Hk.
      { induction k as [|k IHk]; intros Hk; [reflexivity|]. simpl. rewrite IHk by lia.
        unfold upd. destruct (Nat.eqb_spec k i); [lia|reflexivity]. }
      apply Hk. lia. }
    rewrite Hsame. unfold got. destruct p as [| |[]]; destruct (ph i) as [| |[]]; lia.
  - specialize (IH ltac:(lia)). unfold got in *. lia.
Qed.

Lemma count_got_le_all (ph : nat -> phase) (n : nat) :
  all_done ph n -> count_got ph n + count_none ph n = n.
Proof.
  induction n as [|n IH]; intros H; [reflexivity|]. simpl.
  assert (Hn : all_done ph n) by (intros i Hi; apply H; lia).
  specialize (IH Hn). destruct (H n ltac:(lia)) as [[q|] E]; rewrite E; lia.
Qed.

Lemma count_none_pos (ph : nat -> phase) (n : nat) :
  0 < count_none ph n -> exists i, i < n /\ ph i = Done None.
Proof.
  induction n as [|n IH]; simpl; [lia|]. intros H.
  destruct (ph n) as [| |[q|]] eqn:E;
    try (destruct IH as [i [Hi Hp]]; [lia|exists i; split; [lia|exact Hp]]).
  exists n. auto.
Qed.

Lemma update_where_absent (i : string) (f : task -> task) (tbl : table) :
  (forall t, In t tbl -> id t <> i) -> update_where i f tbl = tbl.
Proof.
  induction tbl as [|t ts IH]; intros H; simpl; [reflexivity|].
  destruct (String.eqb_spec (id t) i) as [E|E].
  - exfalso. exact (H t (or_introl eq_refl) E).
  - f_equal. apply IH. intros t' Hin. apply H. right. exact Hin.
Qed.

Lemma count_claimable_mark (now stamp : Z) (tbl : table) (r : task) :
  NoDup (map id tbl) -> In r tbl -> claimable now r = true ->
  count_claimable now (update_where (id r) (mark_processing stamp) tbl) + 1
  = count_claimable now tbl.
Proof.
  induction tbl as [|t ts IH]; intros Hnd Hin Hc; [destruct Hin|].
  inversion Hnd as [|x xs Hnot Hnd']; subst.
  change (update_where (id r) (mark_processing stamp) (t :: ts))
    with ((if String.eqb (id t) (id r) then mark_processing stamp t else t)
          :: update_where (id r) (mark_processing stamp) ts).
  destruct (String.eqb_spec (id t) (id r)) as [E|E].
  - assert (t = r) as ->.
    { destruct Hin as [->|Hin]; [reflexivity|].
      exfalso. apply Hnot. rewrite E. apply in_map. exact Hin. }
    rewrite update_where_absent.
    2:{ intros t' Hin' Hid. apply Hnot. rewrite <- Hid. apply in_map. exact Hin'. }
    unfold count_claimable. cbn [filter]. rewrite Hc.
    change (claimable now (mark_processing stamp r)) with false. cbn [length]. lia.
  - destruct Hin as [->|Hin]; [congruence|].
    specialize (IH Hnd' Hin Hc). unfold count_claimable in *. cbn [filter].
    destruct (claimable now t); cbn [length]; lia.
Qed.

Lemma count_claimable_zero (now : Z) (tbl : table) :
  (forall t, In t tbl -> claimable now t = false) -> count_claimable now tbl = 0.
Proof.
  unfold count_claimable. induction tbl as [|t ts IH]; intros H; [reflexivity|].
  cbn [filter]. rewrite (H t (or_introl eq_refl)).
  apply IH. intros t' Hin. apply H. right. exact Hin.
Qed.

Lemma count_claimable_pos (now : Z) (tbl : table) (r : task) :
  In r tbl -> claimable now r = true -> 0 < count_claimable now tbl.
Proof.
  unfold count_claimable. intros Hin Hc.
  destruct (filter (claimable now) tbl) eqn:E; [|simpl; lia].
  assert (In r (filter (claimable now) tbl)) as Hf by (apply filter_In; auto).
  rewrite E in Hf. destruct Hf.
Qed.

Section SharedLock.

Variables (callers m : nat) (instance_of : nat -> nat) (now : Z).

(** The invariant of a run in which all callers share one object. *)
Definition claim_inv (c : config) : Prop :=
  let '(tbl, ph) := c in
  NoDup (map id tbl) /\
  (forall i j r r', i < callers -> j < callers ->
     ph i = Selected r -> ph j = Selected r' -> i = j) /\
  (forall i r, i < callers -> ph i = Selected r -> In r tbl /\ claimable now r = true) /\
  (forall i q, i < callers -> ph i = Done (Some q) ->
     forall t, In t tbl -> id t = q_id q -> claimable now t = false) /\
  (forall i j a b, i < callers -> j < callers -> i <> j ->
     ph i = Done (Some a) -> ph j = Done (Some b) -> q_id a <> q_id b) /\
  count_claimable now tbl + count_got ph callers = m /\
  ((exists i, i < callers /\ ph i = Done None) -> count_claimable now tbl = 0).

Hypothesis shared : forall i j, i < callers -> j < callers -> instance_of i = instance_of j.

Lemma upd_eq (ph : nat -> phase) (i : nat) (p : phase) : upd ph i p i = p.
Proof. unfold upd. rewrite Nat.eqb_refl. reflexivity. Qed.

Lemma upd_neq (ph : nat -> phase) (i j : nat) (p : phase) : j <> i -> upd ph i p j = ph j.
Proof. intros H. unfold upd. destruct (Nat.eqb_spec j i); [congruence|reflexivity]. Qed.

Lemma claim_inv_step (c1 c2 : config) :
  cstep callers instance_of now c1 c2 -> claim_inv c1 -> claim_inv c2.
Proof.
  intros Hs. destruct Hs as [tbl ph i Hi Hidle Hfree|tbl ph i r Hi Hsel];
    intros (Hnd & Hone & Hselc & Hdone & Hdist & Hcount & Hnone).
  - (* SELECT *)
    pose proof (oldest_claimable_spec now tbl None ltac:(discriminate)) as Hspec.
    assert (Hno_sel : forall j r, j < callers -> ph j <> Selected r).
    { intros j r Hj. apply Hfree; [exact Hj|]. apply shared; assumption. }
    destruct (oldest_claimable now None tbl) as [r|] eqn:Eo.
    + destruct Hspec as [Hr [[Hn|Hin] _]]; [discriminate|].
      refine (conj _ (conj _ (conj _ (conj _ (conj _ (conj _ _)))))).
      * exact Hnd.
      * intros j k r1 r2 Hj Hk H1 H2.
        destruct (Nat.eq_dec j i) as [->|Hji].
        -- destruct (Nat.eq_dec k i) as [->|Hki]; [reflexivity|].
           rewrite upd_neq in H2 by exact Hki. exfalso. eapply Hno_sel; [exact Hk|exact H2].
        -- rewrite upd_neq in H1 by exact Hji. exfalso. eapply Hno_sel; [exact Hj|exact H1].
      * intros j r1 Hj H1. destruct (Nat.eq_dec j i) as [->|Hji].
        -- rewrite upd_eq in H1. inversion H1; subst. split; assumption.
        -- rewrite upd_neq in H1 by exact Hji. exfalso. eapply Hno_sel; [exact Hj|exact H1].
      * intros j q Hj H1. destruct (Nat.eq_dec j i) as [->|Hji].
        -- rewrite upd_eq in H1. discriminate.
        -- rewrite upd_neq in H1 by exact Hji. eapply Hdone; eassumption.
      * intros j k a b Hj Hk Hjk H1 H2.
        destruct (Nat.eq_dec j i) as [->|Hji]; [rewrite upd_eq in H1; discriminate|].
        destruct (Nat.eq_dec k i) as [->|Hki]; [rewrite upd_eq in H2; discriminate|].
        rewrite (upd_neq ph i j) in H1 by exact Hji. rewrite (upd_neq ph i k) in H2 by exact Hki.
        exact (Hdist j k a b Hj Hk Hjk H1 H2).
      * pose proof (count_got_upd ph i (Selected r) callers Hi) as E. rewrite Hidle in E.
        simpl in E. lia.
      * intros [j [Hj H1]]. destruct (Nat.eq_dec j i) as [->|Hji].
        -- rewrite upd_eq in H1. discriminate.
        -- rewrite upd_neq in H1 by exact Hji. apply Hnone. exists j. auto.
    + destruct Hspec as [_ Hall].
      refine (conj _ (conj _ (conj _ (conj _ (conj _ (conj _ _)))))).
      * exact Hnd.
      * intros j k r1 r2 Hj Hk H1 H2. exfalso.
        destruct (Nat.eq_dec j i) as [->|Hji]; [rewrite upd_eq in H1; discriminate|].
        rewrite upd_neq in H1 by exact Hji. eapply Hno_sel; [exact Hj|exact H1].
      * intros j r1 Hj H1. exfalso.
        destruct (Nat.eq_dec j i) as [->|Hji]; [rewrite upd_eq in H1; discriminate|].
        rewrite upd_neq in H1 by exact Hji. eapply Hno_sel; [exact Hj|exact H1].
      * intros j q Hj H1. destruct (Nat.eq_dec j i) as [->|Hji].
        -- rewrite upd_eq in H1. discriminate.
        -- rewrite upd_neq in H1 by exact Hji. eapply Hdone; eassumption.
      * intros j k a b Hj Hk Hjk H1 H2.
        destruct (Nat.eq_dec j i) as [->|Hji]; [rewrite upd_eq in H1; discriminate|].
        destruct (Nat.eq_dec k i) as [->|Hki]; [rewrite upd_eq in H2; discriminate|].
        rewrite (upd_neq ph i j) in H1 by exact Hji. rewrite (upd_neq ph i k) in H2 by exact Hki.
        exact (Hdist j k a b Hj Hk Hjk H1 H2).
      * pose proof (count_got_upd ph i (Done None) callers Hi) as E. rewrite Hidle in E.
        simpl in E. lia.
      * intros _. apply count_claimable_zero. exact Hall.
  - (* UPDATE *)
    destruct (Hselc i r Hi Hsel) as [Hin Hr].
    assert (Hno_other : forall j r', j < callers -> j <> i -> ph j <> Selected r').
    { intros j r' Hj Hji H. apply Hji. eapply Hone; eassumption. }
    assert (Hid : forall t, id (mark_processing now t) = id t) by reflexivity.
    assert (Hmarked : forall t, In t (update_where (id r) (mark_processing now) tbl) ->
                      id t = id r -> claimable now t = false).
    { intros t Ht Htid. apply In_update_where in Ht as [t0 [_ ->]].
      destruct (String.eqb_spec (id t0) (id r)); [reflexivity|simpl in Htid; congruence]. }
    refine (conj _ (conj _ (conj _ (conj _ (conj _ (conj _ _)))))).
    + rewrite map_id_update_where by exact Hid. exact Hnd.
    + intros j k r1 r2 Hj Hk H1 H2. exfalso.
      destruct (Nat.eq_dec j i) as [->|Hji]; [rewrite upd_eq in H1; discriminate|].
      rewrite upd_neq in H1 by exact Hji. eapply Hno_other; [exact Hj|exact Hji|exact H1].
    + intros j r1 Hj H1. exfalso.
      destruct (Nat.eq_dec j i) as [->|Hji]; [rewrite upd_eq in H1; discriminate|].
      rewrite upd_neq in H1 by exact Hji. eapply Hno_other; [exact Hj|exact Hji|exact H1].
    + intros j q Hj H1 t Ht Htq. destruct (Nat.eq_dec j i) as [->|Hji].
      * rewrite upd_eq in H1. inversion H1; subst. apply Hmarked; [exact Ht|exact Htq].
      * rewrite upd_neq in H1 by exact Hji.
        apply In_update_where in Ht as [t0 [Ht0 ->]].
        destruct (String.eqb_spec (id t0) (id r)); [reflexivity|].
        eapply Hdone; eassumption.
    + assert (Hfresh : forall j b, j < callers -> j <> i -> ph j = Done (Some b) -> id r <> q_id b).
      { intros j b Hj Hji H1 Heq. pose proof (Hdone j b Hj H1 r Hin Heq). congruence. }
      intros j k a b Hj Hk Hjk H1 H2.
      destruct (Nat.eq_dec j i) as [->|Hji]; destruct (Nat.eq_dec k i) as [->|Hki].
      * congruence.
      * rewrite upd_eq in H1. rewrite upd_neq in H2 by exact Hki. inversion H1; subst.
        simpl. apply (Hfresh k); assumption.
      * rewrite upd_eq in H2. rewrite upd_neq in H1 by exact Hji. inversion H2; subst.
        simpl. intros Heq. apply (Hfresh j a); auto.
      * rewrite (upd_neq ph i j) in H1 by exact Hji. rewrite (upd_neq ph i k) in H2 by exact Hki.
        exact (Hdist j k a b Hj Hk Hjk H1 H2).
    + pose proof (count_got_upd ph i (Done (Some (queued_of r))) callers Hi) as E.
      rewrite Hsel in E. simpl in E.
      pose proof (count_claimable_mark now now tbl r Hnd Hin Hr). lia.
    + intros [j [Hj H1]]. exfalso. destruct (Nat.eq_dec j i) as [->|Hji].
      * rewrite upd_eq in H1. discriminate.
      * rewrite upd_neq in H1 by exact Hji.
        pose proof (Hnone (ex_intro _ j (conj Hj H1))).
        pose proof (count_claimable_pos now tbl r Hin Hr). lia.
Qed.

Lemma claim_inv_reach (c1 c2 : config) :
  creach callers instance_of now c1 c2 -> claim_inv c1 -> claim_inv c2.
Proof.
  induction 1 as [c|c1 c2 c3 Hs _ IH]; intros H; [exact H|].
  apply IH. eapply claim_inv_step; eassumption.
Qed.

End SharedLock.

(** C9 (amended): [callers] concurrent [dequeue] calls made through one
    shared [SQLiteTaskQueue] object, against a table with unique ids
    holding [m < callers] claimable tasks: once every call has returned,
    exactly [m] callers received a task, and no two of them received the
    same task id. *)
Theorem shared_queue_claims_exactly_m (callers m : nat) (instance_of : nat -> nat) (now : Z)
    (tbl0 : table) (c : config)
    (Hshared : forall i j, i < callers -> j < callers -> instance_of i = instance_of j)
    (Hnd : NoDup (map id tbl0))
    (Hm : count_claimable now tbl0 = m) (Hmk : m < callers)
    (Hrun : creach callers instance_of now (tbl0, fun _ => Idle) c)
    (Hdone : all_done (snd c) callers) :
  count_got (snd c) callers = m /\
  (forall i j a b, i < callers -> j < callers -> i <> j ->
     snd c i = Done (Some a) -> snd c j = Done (Some b) -> q_id a <> q_id b).
Proof.
  assert (Hinit : claim_inv callers m now (tbl0, fun _ => Idle)).
  { cbn [claim_inv].
    refine (conj Hnd (conj _ (conj _ (conj _ (conj _ (conj _ _)))))).
    - intros i j r r' _ _ H. discriminate.
    - intros i r _ H. discriminate.
    - intros i q _ H. discriminate.
    - intros i j a b _ _ _ H. discriminate.
    - assert (Hz : forall n, count_got (fun _ => Idle) n = 0)
        by (induction n; simpl; lia).
      rewrite Hz. lia.
    - intros [i [_ H]]. discriminate. }
  pose proof (claim_inv_reach callers m instance_of now Hshared _ _ Hrun Hinit) as Hinv.
  destruct c as [tbl ph]. simpl in Hdone |- *.
  destruct Hinv as (_ & _ & _ & _ & Hdist & Hcount & Hnone).
  split; [|exact Hdist].
  pose proof (count_got_le_all ph callers Hdone) as Hall.
  destruct (count_none ph callers) as [|n] eqn:En; [lia|].
  destruct (count_none_pos ph callers ltac:(lia)) as [i [Hi Hp]].
  specialize (Hnone (ex_intro _ i (conj Hi Hp))). lia.
Qed.

(** C9 (counterexample): two callers using two different
    [SQLiteTaskQueue] objects (two worker processes, say) and one
    claimable task: both SELECTs can run before either UPDATE, and both
    callers receive the same task. *)
Lemma separate_queues_double_claim :
  exists c, creach 2 (fun i => i) 0 ([new_task "t" "job" "[]" "{}" 0], fun _ => Idle) c /\
    count_claimable 0 [new_task "t" "job" "[]" "{}" 0] = 1 /\
    all_done (snd c) 2 /\ count_got (snd c) 2 = 2 /\
    exists q, snd c 0 = Done (Some q) /\ snd c 1 = Done (Some q) /\ q_id q = "t".
Proof.
  set (r := new_task "t" "job" "[]" "{}" 0).
  set (ph1 := upd (fun _ => Idle) 0 (Selected r)).
  set (ph2 := upd ph1 1 (Selected r)).
  set (ph3 := upd ph2 0 (Done (Some (queued_of r)))).
  set (ph4 := upd ph3 1 (Done (Some (queued_of r)))).
  set (tbl1 := update_where (id r) (mark_processing 0) [r]).
  exists (update_where (id r) (mark_processing 0) tbl1, ph4).
  split.
  - eapply creach_step.
    { apply (cstep_select 2 (fun i => i) 0 [r] (fun _ => Idle) 0); [lia|reflexivity|].
      intros j r' _ _ H. discriminate. }
    eapply creach_step.
    { apply (cstep_select 2 (fun i => i) 0 [r] ph1 1); [lia|reflexivity|].
      intros j r' Hj Hji. simpl in Hji. subst j. unfold ph1, upd. simpl. discriminate. }
    eapply creach_step.
    { apply (cstep_update 2 (fun i => i) 0 [r] ph2 0 r); [lia|reflexivity]. }
    eapply creach_step.
    { apply (cstep_update 2 (fun i => i) 0 tbl1 ph3 1 r); [lia|reflexivity]. }
    apply creach_refl.
  - split; [reflexivity|]. split.
    + intros i Hi. simpl. unfold ph4, ph3, upd.
      destruct i as [|[|i]]; simpl; [eexists; reflexivity|eexists; reflexivity|lia].
    + split; [reflexivity|]. exists (queued_of r). repeat split.
Qed.

(* ------------------------------------------------------------------ *)
(** ** The pipeline *)

Lemma retry_loop_trace {A} (name : string) (func : nat -> A + exn) (mr : Z) (bd md bf : Q) :
  forall fuel a last, wrapper_trace name (fst (retry_loop name func mr bd md bf fuel a last)).
Proof.
  induction fuel as [|fuel IH]; intros a last ev Hin.
  - destruct last; simpl in Hin; contradiction.
  - cbn [retry_loop] in Hin; unfold bind, emit, ret, raise in Hin.
    destruct (func a) as [v|e].
    + simpl in Hin. destruct Hin as [<-|[]]. left. eexists; reflexivity.
    + destruct (is_retryable_exc e).
      * destruct (Z.eqb (Z.of_nat a) mr).
        -- simpl in Hin. destruct Hin as [<-|[]]. left. eexists; reflexivity.
        -- destruct (retry_loop name func mr bd md bf fuel (S a) (Some e)) as [tr r] eqn:E.
           simpl in Hin. destruct Hin as [<-|[<-|Hin]].
           ++ left. eexists; reflexivity.
           ++ right. eexists; reflexivity.
           ++ specialize (IH (S a) (Some e)). rewrite E in IH. exact (IH ev Hin).
      * destruct e; simpl in Hin; destruct Hin as [<-|[]]; left; eexists; reflexivity.
Qed.

Lemma retry_with_backoff_trace {A} (name : string) (func : nat -> A + exn) (mr : Z) (bd md bf : Q) :
  wrapper_trace name (fst (retry_with_backoff name func mr bd md bf)).
Proof. apply retry_loop_trace. Qed.

Lemma last_status_app (l1 l2 : list event) :
  last_status (l1 ++ l2)%list =
  match last_status l2 with Some x => Some x | None => last_status l1 end.
Proof.
  induction l1 as [|ev l1 IH]; simpl.
  - destruct (last_status l2); reflexivity.
  - rewrite IH. destruct ev; try reflexivity.
    destruct (last_status l2); reflexivity.
Qed.


Lemma wrapper_no_invoke (name name' : string) (tr : list event) :
  wrapper_trace name tr -> name' <> name -> ~ invokes name' tr.
Proof.
  intros H Hne [a Hin]. destruct (H _ Hin) as [[i Hi]|[q Hq]]; [|discriminate].
  inversion Hi. congruence.
Qed.

Lemma wrapper_no_status (name : string) (tr : list event) s p m :
  wrapper_trace name tr -> ~ In (Status s p m) tr.
Proof. intros H Hin. destruct (H _ Hin) as [[i Hi]|[q Hq]]; discriminate. Qed.

(** C7: if the skip check passes, the file record exists and the parsing
    stage fails with a [NonRetryableError], [process_document] re-raises
    that error, its last status write is [error] with progress [0] and a
    message carrying the error's text, and the chunking, embedding and
    storing wrappers are never called in that run. *)
Theorem parse_nonretryable_stops_pipeline (lower : string -> string) (random : nat -> Q)
    (d : doc_input) (filepath filename m : string) (k : ErrorType) (cause : option exn)
    (Hskip : should_skip_task (error_tracker d) (file_id d) 3 = false)
    (Hfile : file_record d = Some (filepath, filename))
    (Hparse : snd (parse_document_with_retry lower (mineru d)) =
              inr (NonRetryableError m k cause)) :
  snd (process_document lower random d) = inr (NonRetryableError m k cause) /\
  fst (process_document lower random d) =
    (Status "parsing" 10 "MinerU解析中..." :: fst (parse_document_with_retry lower (mineru d))
     ++ [Status "error" 0 ("❌ 处理失败 (不可重试): " ++ m)])%list /\
  last_status (fst (process_document lower random d)) =
    Some ("error", 0%Z, "❌ 处理失败 (不可重试): " ++ m) /\
  ~ invokes "chunk_document_with_retry" (fst (process_document lower random d)) /\
  ~ invokes "generate_embeddings_with_retry" (fst (process_document lower random d)) /\
  ~ invokes "store_with_retry" (fst (process_document lower random d)).
Proof.
  pose proof (retry_with_backoff_trace "parse_document_with_retry"
                (fun a => classify_outcome lower "parsing" (mineru d a)) 2 1 60 2) as Htr.
  fold (parse_document_with_retry lower (mineru d)) in Htr.
  destruct (parse_document_with_retry lower (mineru d)) as [tr o] eqn:Ep.
  simpl in Hparse, Htr. subst o.
  assert (Hrun : process_document lower random d =
    ((Status "parsing" 10 "MinerU解析中..." :: tr
      ++ [Status "error" 0 ("❌ 处理失败 (不可重试): " ++ m)])%list,
     inr (NonRetryableError m k cause))).
  { unfold process_document, process_document_body. rewrite Hskip, Hfile, Ep.
    reflexivity. }
  rewrite Hrun. simpl fst. simpl snd.
  assert (Hni : forall name, name <> "parse_document_with_retry" ->
            ~ invokes name (Status "parsing" 10 "MinerU解析中..." :: tr
                            ++ [Status "error" 0 ("❌ 处理失败 (不可重试): " ++ m)])%list).
  { intros name Hne [a Hin]. simpl in Hin. destruct Hin as [Hin|Hin]; [discriminate|].
    apply in_app_or in Hin. destruct Hin as [Hin|[Hin|[]]]; [|discriminate].
    exact (wrapper_no_invoke _ name tr Htr Hne (ex_intro _ a Hin)). }
  refine (conj eq_refl (conj eq_refl (conj _ (conj _ (conj _ _))))).
  - change (last_status ((Status "parsing" 10 "MinerU解析中..." :: tr)
              ++ [Status "error" 0 ("❌ 处理失败 (不可重试): " ++ m)])%list =
            Some ("error", 0%Z, "❌ 处理失败 (不可重试): " ++ m)).
    rewrite last_status_app. reflexivity.
  - apply Hni. discriminate.
  - apply Hni. discriminate.
  - apply Hni. discriminate.
Qed.

Lemma fallback_embeddings_shape (random : nat -> Q) (chunks : list chunk) :
  length (fallback_embeddings random chunks) = length chunks /\
  Forall (fun v => length v = 768) (fallback_embeddings random chunks).
Proof.
  unfold fallback_embeddings. split.
  - rewrite length_map, length_seq. reflexivity.
  - apply Forall_forall. intros v Hin. apply in_map_iff in Hin.
    destruct Hin as [j [<- _]]. rewrite length_map, length_seq. reflexivity.
Qed.

Lemma embedding_wrapper_first_try (lower : string -> string) (random : nat -> Q)
    (engine : nat -> list embedding + exn) (chunks : list chunk) :
  generate_embeddings_with_retry lower random engine chunks =
    ([Invoke "generate_embeddings_with_retry" 0],
     inl (generate_embeddings random (engine 0) chunks)).
Proof. reflexivity. Qed.

(** C10: whatever the embedding engine raises, [generate_embeddings]
    returns [fallback_embeddings], one 768-long vector per chunk; the
    embedding wrapper therefore succeeds on its first call, and a run
    whose skip check, file lookup, parsing, chunking and storing succeed
    ends with status [completed] at progress [100], never writes status
    [error], and returns the chunk count, for every embedding engine. *)
Theorem embedding_failure_falls_back (lower : string -> string) (random : nat -> Q) :
  (forall (chunks : list chunk) (e : exn),
     generate_embeddings random (inr e) chunks = fallback_embeddings random chunks /\
     length (generate_embeddings random (inr e) chunks) = length chunks /\
     Forall (fun v => length v = 768) (generate_embeddings random (inr e) chunks)) /\
  (forall engine chunks,
     snd (generate_embeddings_with_retry lower random engine chunks) =
     inl (generate_embeddings random (engine 0) chunks)) /\
  (forall (d : doc_input) filepath filename p cs,
     should_skip_task (error_tracker d) (file_id d) 3 = false ->
     file_record d = Some (filepath, filename) ->
     snd (parse_document_with_retry lower (mineru d)) = inl p ->
     snd (chunk_document_with_retry lower (chunker d)) = inl cs ->
     snd (store_with_retry lower (storer d)) = inl tt ->
     snd (process_document lower random d) = inl (Processed (length cs)) /\
     last_status (fst (process_document lower random d)) =
       Some ("completed", 100%Z, completion_message d) /\
     forall pr msg, ~ In (Status "error" pr msg) (fst (process_document lower random d))).
Proof.
  refine (conj _ (conj _ _)).
  - intros chunks e. simpl. exact (conj eq_refl (fallback_embeddings_shape random chunks)).
  - intros engine chunks. rewrite embedding_wrapper_first_try. reflexivity.
  - intros d filepath filename p cs Hskip Hfile Hp Hc Hs.
    pose proof (retry_with_backoff_trace "parse_document_with_retry"
                  (fun a => classify_outcome lower "parsing" (mineru d a)) 2 1 60 2) as Tp.
    pose proof (retry_with_backoff_trace "chunk_document_with_retry"
                  (fun a => classify_outcome lower "chunking" (chunker d a)) 2 (1 # 2) 60 2) as Tc.
    pose proof (retry_with_backoff_trace "store_with_retry"
                  (fun a => classify_outcome lower "storing" (storer d a)) 2 1 60 2) as Ts.
    fold (parse_document_with_retry lower (mineru d)) in Tp.
    fold (chunk_document_with_retry lower (chunker d)) in Tc.
    fold (store_with_retry lower (storer d)) in Ts.
    destruct (parse_document_with_retry lower (mineru d)) as [trp op] eqn:Ep.
    destruct (chunk_document_with_retry lower (chunker d)) as [trc oc] eqn:Ec.
    destruct (store_with_retry lower (storer d)) as [trs os] eqn:Es.
    simpl in Hp, Hc, Hs, Tp, Tc, Ts. subst op oc os.
    set (tp := match total_pages p with Some n => negb (Z.eqb n 0) | None => false end).
    set (tr := (Status "parsing" 10 "MinerU解析中..." :: trp ++
      (LogStage "parsing" "completed" :: (if tp then [Results "total_pages"] else []) ++
      (Status "parsing" 30 "文档解析完成" :: Status "chunking" 40 "智能分块中..." :: trc ++
      (LogStage "chunking" "completed" :: Results "chunks_count" ::
       Status "chunking" 60 ("分块完成，共" ++ nat_to_string (length cs) ++ "块") ::
       Status "embedding" 70 "向量化中..." :: Invoke "generate_embeddings_with_retry" 0 ::
       LogStage "embedding" "completed" :: Status "embedding" 90 "向量化完成" ::
       Status "storing" 95 "存储向量中..." :: trs ++
       [LogStage "storing" "completed"; Status "completed" 100 (completion_message d)]))))%list).
    assert (Hrun : process_document lower random d = (tr, inl (Processed (length cs)))).
    { unfold process_document, process_document_body. rewrite Hskip, Hfile, Ep, Ec, Es.
      cbn [bind emit ret when]. rewrite embedding_wrapper_first_try.
      fold tp. destruct tp; reflexivity. }
    rewrite Hrun. simpl fst. simpl snd.
    refine (conj eq_refl (conj _ _)).
    + unfold tr. repeat (rewrite last_status_app || cbn [last_status]).
      reflexivity.
    + intros pr msg Hin. unfold tr in Hin.
      repeat (match type of Hin with
              | In _ (_ :: _) => destruct Hin as [Hin|Hin]; [discriminate|]
              | In _ (_ ++ _)%list => apply in_app_or in Hin; destruct Hin as [Hin|Hin]
              | In _ (if ?b then _ else _) => destruct b
              | In _ [] => destruct Hin
              end);
        first [exact (wrapper_no_status _ _ _ _ _ Tp Hin)
              |exact (wrapper_no_status _ _ _ _ _ Tc Hin)
              |exact (wrapper_no_status _ _ _ _ _ Ts Hin)
              |idtac].
Qed.

(* ------------------------------------------------------------------ *)
(** ** Instances of the hypotheses *)

(** C1 at a call that drops the connection once and then returns 7. *)
Lemma retry_with_backoff_contract_witness :
  (0 <= 2)%Z /\
  exists k, k <= Z.to_nat 2 /\
    (forall i, i < k -> exists e,
       (fun a => match a with O => inr (PyError ConnectionError "reset") | _ => inl 7 end) i = inr e
       /\ is_retryable_exc e = true) /\
    retry_with_backoff "fetch"
      (fun a => match a with O => inr (PyError ConnectionError "reset") | _ => inl 7 end) 2 1 60 2 =
      ((retry_prefix "fetch" (backoff_delay 1 60 2) k ++ [Invoke "fetch" k])%list,
       retry_final ((fun a => match a with O => inr (PyError ConnectionError "reset") | _ => inl 7 end) k)) /\
    (forall e, (fun a => match a with O => inr (PyError ConnectionError "reset") | _ => inl 7 end) k = inr e ->
       is_retryable_exc e = true -> k = Z.to_nat 2) /\
    (forall v, snd (retry_with_backoff "fetch"
                 (fun a => match a with O => inr (PyError ConnectionError "reset") | _ => inl 7 end) 2 1 60 2)
               = inl v ->
       (fun a => match a with O => inr (PyError ConnectionError "reset") | _ => inl 7 end) k = inl v).
Proof.
  split; [lia|].
  exact (retry_with_backoff_contract "fetch"
           (fun a => match a with O => inr (PyError ConnectionError "reset") | _ => inl 7 end)
           2 1 60 2 ltac:(lia)).
Defined.

(** C4 at the policy of [parse_document_with_retry]. *)
Lemma backoff_delay_spec_witness :
  ((0 < 1)%Q /\ (1 <= 2)%Q /\ (0 < 60)%Q) /\
  (forall n, (backoff_delay 1 60 2 n == Qmin (1 * 2 ^ Z.of_nat n) 60)%Q) /\
  (forall n m, n <= m -> (backoff_delay 1 60 2 n <= backoff_delay 1 60 2 m)%Q) /\
  (forall (A : Type) (name : string) (func : nat -> A + exn) (max_retries : Z),
     let tr := fst (retry_with_backoff name func max_retries 1 60 2) in
     sleeps tr = map (backoff_delay 1 60 2) (seq 0 (length (sleeps tr)))).
Proof.
  assert (H1 : (0 < 1)%Q) by reflexivity.
  assert (H2 : (1 <= 2)%Q) by discriminate.
  assert (H3 : (0 < 60)%Q) by reflexivity.
  exact (conj (conj H1 (conj H2 H3)) (backoff_delay_spec 1 60 2 H1 H2 H3)).
Defined.

(** C5 at a plain exception with the message [boom]. *)
Lemma unmatched_message_classified_unknown_retryable_witness :
  matches_no_keyword ascii_lower dispatch_keywords (PyError OtherException "boom") /\
  log_and_handle_error ascii_lower (PyError OtherException "boom") "storing"
    = RetryableError ("未分类错误: " ++ py_str (PyError OtherException "boom")) UNKNOWN_ERROR
        (Some (PyError OtherException "boom")) /\
  verdict (log_and_handle_error ascii_lower (PyError OtherException "boom") "storing")
    = Some (true, UNKNOWN_ERROR) /\
  is_retryable_exc (log_and_handle_error ascii_lower (PyError OtherException "boom") "storing") = true.
Proof.
  assert (H : matches_no_keyword ascii_lower dispatch_keywords (PyError OtherException "boom")).
  { unfold matches_no_keyword, dispatch_keywords.
    repeat (apply Forall_cons; [reflexivity|]). apply Forall_nil. }
  exact (conj H (unmatched_message_classified_unknown_retryable ascii_lower _ "storing" H)).
Defined.

(** C6 at a [NonRetryableError] of kind [FILE_ERROR]. *)
Lemma typed_error_classified_by_message_witness :
  verdict (NonRetryableError "boom" FILE_ERROR None) <> None /\
  verdict (log_and_handle_error ascii_lower (NonRetryableError "boom" FILE_ERROR None) "storing")
    = verdict (log_and_handle_error ascii_lower
                 (PyError OtherException (py_str (NonRetryableError "boom" FILE_ERROR None))) "storing") /\
  py_str (log_and_handle_error ascii_lower (NonRetryableError "boom" FILE_ERROR None) "storing")
    = py_str (log_and_handle_error ascii_lower
                (PyError OtherException (py_str (NonRetryableError "boom" FILE_ERROR None))) "storing").
Proof.
  assert (H : verdict (NonRetryableError "boom" FILE_ERROR None) <> None) by discriminate.
  exact (conj H (typed_error_classified_by_message ascii_lower _ "storing" H)).
Defined.

(** C7 at a document whose parser reports a corrupted file. *)
Lemma parse_nonretryable_stops_pipeline_witness :
  let d := mk_doc_input "f1" empty_tracker (Some ("/data/a.pdf", "a.pdf"))
             (fun _ => inr (PyError OtherException "Corrupted parse output"))
             (fun _ => inl []) (fun _ => inl []) (fun _ => inl tt) "done" in
  let m := "文档损坏 (parsing): Corrupted parse output" in
  let cause := Some (PyError OtherException "Corrupted parse output") in
  should_skip_task (error_tracker d) (file_id d) 3 = false /\
  file_record d = Some ("/data/a.pdf", "a.pdf") /\
  snd (parse_document_with_retry ascii_lower (mineru d)) =
    inr (NonRetryableError m PARSING_ERROR cause) /\
  snd (process_document ascii_lower (fun _ => 0%Q) d) = inr (NonRetryableError m PARSING_ERROR cause) /\
  last_status (fst (process_document ascii_lower (fun _ => 0%Q) d)) =
    Some ("error", 0%Z, "❌ 处理失败 (不可重试): " ++ m) /\
  ~ invokes "chunk_document_with_retry" (fst (process_document ascii_lower (fun _ => 0%Q) d)) /\
  ~ invokes "generate_embeddings_with_retry" (fst (process_document ascii_lower (fun _ => 0%Q) d)) /\
  ~ invokes "store_with_retry" (fst (process_document ascii_lower (fun _ => 0%Q) d)).
Proof.
  intros d m cause.
  assert (H1 : should_skip_task (error_tracker d) (file_id d) 3 = false) by reflexivity.
  assert (H2 : file_record d = Some ("/data/a.pdf", "a.pdf")) by reflexivity.
  assert (H3 : snd (parse_document_with_retry ascii_lower (mineru d)) =
                 inr (NonRetryableError m PARSING_ERROR cause)) by (vm_compute; reflexivity).
  destruct (parse_nonretryable_stops_pipeline ascii_lower (fun _ => 0%Q) d "/data/a.pdf" "a.pdf"
              m PARSING_ERROR cause H1 H2 H3) as (R1 & _ & R3 & R4 & R5 & R6).
  exact (conj H1 (conj H2 (conj H3 (conj R1 (conj R3 (conj R4 (conj R5 R6))))))).
Defined.

(** C9 at two callers sharing one queue object and one claimable task:
    caller 0 claims it, caller 1 then finds nothing. *)
Lemma shared_queue_claims_exactly_m_witness :
  let r := new_task "t" "job" "[]" "{}" 0 in
  let c := (update_where (id r) (mark_processing 0) [r],
            upd (upd (upd (fun _ => Idle) 0 (Selected r)) 0 (Done (Some (queued_of r)))) 1 (Done None)) in
  (forall i j, i < 2 -> j < 2 -> (fun _ : nat => 0) i = (fun _ : nat => 0) j) /\
  NoDup (map id [r]) /\ count_claimable 0 [r] = 1 /\ 1 < 2 /\
  creach 2 (fun _ => 0) 0 ([r], fun _ => Idle) c /\ all_done (snd c) 2 /\
  count_got (snd c) 2 = 1 /\
  (forall i j a b, i < 2 -> j < 2 -> i <> j ->
     snd c i = Done (Some a) -> snd c j = Done (Some b) -> q_id a <> q_id b).
Proof.
  intros r c.
  assert (Hsh : forall i j, i < 2 -> j < 2 -> (fun _ : nat => 0) i = (fun _ : nat => 0) j)
    by reflexivity.
  assert (Hnd : NoDup (map id [r])) by (constructor; [intros []|constructor]).
  assert (Hm : count_claimable 0 [r] = 1) by reflexivity.
  assert (Hrun : creach 2 (fun _ => 0) 0 ([r], fun _ => Idle) c).
  { eapply creach_step.
    { apply (cstep_select 2 (fun _ => 0) 0 [r] (fun _ => Idle) 0); [lia|reflexivity|].
      intros j r' _ _ H. discriminate. }
    eapply creach_step.
    { apply (cstep_update 2 (fun _ => 0) 0 [r] _ 0 r); [lia|reflexivity]. }
    eapply creach_step.
    { apply (cstep_select 2 (fun _ => 0) 0 _ _ 1); [lia|reflexivity|].
      intros j r' Hj _. unfold upd.
      destruct j as [|[|j]]; simpl; [discriminate|discriminate|lia]. }
    apply creach_refl. }
  assert (Hdone : all_done (snd c) 2).
  { intros i Hi. destruct i as [|[|i]]; simpl; [eexists; reflexivity|eexists; reflexivity|lia]. }
  assert (Hlt : 1 < 2) by lia.
  destruct (shared_queue_claims_exactly_m 2 1 (fun _ => 0) 0 [r] c Hsh Hnd Hm Hlt Hrun Hdone)
    as [Hg Hd].
  exact (conj Hsh (conj Hnd (conj Hm (conj Hlt (conj Hrun (conj Hdone (conj Hg Hd))))))).
Defined.

(* ------------------------------------------------------------------ *)
(** ** More on the retry wrapper *)

(** With a negative [max_retries], [range(max_retries + 1)] is empty:
    the wrapped function is never called and [raise last_exception]
    raises [None], a [TypeError]. *)
Theorem retry_negative_max_retries_never_calls {A} (name : string) (func : nat -> A + exn)
    (max_retries : Z) (base_delay max_delay backoff_factor : Q)
    (Hneg : (max_retries < 0)%Z) :
  retry_with_backoff name func max_retries base_delay max_delay backoff_factor =
    ([], inr (PyError TypeError_ "exceptions must derive from BaseException")).
Proof.
  unfold retry_with_backoff. replace (Z.to_nat (max_retries + 1)) with 0 by lia.
  reflexivity.
Qed.

Lemma calls_app (name : string) (t1 t2 : list event) :
  calls name (t1 ++ t2)%list = calls name t1 + calls name t2.
Proof. unfold calls. rewrite filter_app, length_app. reflexivity. Qed.

Lemma calls_prefix (name : string) (delay : nat -> Q) (a k : nat) :
  calls name (flat_map (fun i => [Invoke name i; Sleep (delay i)]) (seq a k)) = k.
Proof.
  revert a. induction k as [|k IH]; intros a; [reflexivity|].
  cbn [seq flat_map]. change (Invoke name a :: Sleep (delay a) :: ?l)
    with ([Invoke name a] ++ [Sleep (delay a)] ++ l)%list.
  rewrite !calls_app, IH. unfold calls. simpl. rewrite String.eqb_refl. reflexivity.
Qed.

Lemma py_min_le_r (a b : Q) : (py_min a b <= b)%Q.
Proof.
  unfold py_min. destruct (Qle_bool a b) eqn:E; [apply Qle_bool_iff; exact E|apply Qle_refl].
Qed.

Lemma Qsum_map_le (f : nat -> Q) (b : Q) (l : list nat) :
  (forall i, (f i <= b)%Q) -> (Qsum (map f l) <= inject_Z (Z.of_nat (length l)) * b)%Q.
Proof.
  intros Hf. unfold Qsum in *. induction l as [|i l IH]; cbn [map fold_right length].
  - unfold Qle. simpl. lia.
  - rewrite Nat2Z.inj_succ, <- Z.add_1_r, inject_Z_plus.
    specialize (Hf i). change (inject_Z 1) with 1%Q. lra.
Qed.

(** However the wrapped function behaves, a call of the wrapper (with
    [max_retries >= 0] and [max_delay >= 0]) calls it at least once and at
    most [max_retries + 1] times, and sleeps [max_retries * max_delay]
    seconds at most in total. *)
Theorem retry_calls_and_sleep_bounded {A} (name : string) (func : nat -> A + exn)
    (max_retries : Z) (base_delay max_delay backoff_factor : Q)
    (Hm : (0 <= max_retries)%Z) (Hd : (0 <= max_delay)%Q) :
  let tr := fst (retry_with_backoff name func max_retries base_delay max_delay backoff_factor) in
  1 <= calls name tr <= Z.to_nat max_retries + 1 /\
  (Qsum (sleeps tr) <= inject_Z max_retries * max_delay)%Q.
Proof.
  unfold retry_with_backoff. cbv zeta.
  destruct (retry_loop_run name func max_retries base_delay max_delay backoff_factor
              (Z.to_nat (max_retries + 1)) 0 None) as [k [_ [Hkm [_ [Hrun _]]]]];
    [lia|lia|].
  rewrite Hrun. cbn [fst]. rewrite Nat.sub_0_r, calls_app, calls_prefix.
  assert (H1 : calls name [Invoke name k] = 1)
    by (unfold calls; simpl; rewrite String.eqb_refl; reflexivity).
  rewrite H1. split; [lia|].
  rewrite sleeps_app. simpl. rewrite app_nil_r.
  fold (retry_prefix name (backoff_delay base_delay max_delay backoff_factor) k).
  rewrite sleeps_retry_prefix.
  eapply Qle_trans.
  - apply Qsum_map_le. intros i. apply py_min_le_r.
  - rewrite length_seq.
    assert (Hk : (inject_Z (Z.of_nat k) <= inject_Z max_retries)%Q)
      by (rewrite <- Zle_Qle; lia).
    nra.
Qed.

(* ------------------------------------------------------------------ *)
(** ** More on the classifier *)

(** [log_and_handle_error] always returns one of the two typed errors and
    keeps the failure it was given as [original_error]. *)
Theorem log_and_handle_error_typed (lower : string -> string) (e : exn) (context : string) :
  exists m k,
    log_and_handle_error lower e context = RetryableError m k (Some e) \/
    log_and_handle_error lower e context = NonRetryableError m k (Some e).
Proof.
  unfold log_and_handle_error, handle_api_error, handle_file_error,
    handle_database_error, handle_parsing_error.
  repeat match goal with |- context [if ?b then _ else _] => destruct b end;
    try (do 2 eexists; (left; reflexivity) || (right; reflexivity)).
  all: destruct e as [| |c t]; try (do 2 eexists; (left; reflexivity) || (right; reflexivity)).
  all: destruct c; simpl; do 2 eexists; (left; reflexivity) || (right; reflexivity).
Qed.

(** [handle_file_error] always gives a [FILE_ERROR]; it is retryable
    exactly for an [OSError] other than [FileNotFoundError] and
    [PermissionError] (so also for [ConnectionError] and [TimeoutError],
    which are [OSError]s), and non-retryable for everything else,
    including an error that was already a [RetryableError]. *)
Theorem handle_file_error_verdict (e : exn) (file_path : string) :
  verdict (handle_file_error e file_path) =
    Some (match e with
          | PyError (ConnectionError | TimeoutError | OSError) _ => true
          | _ => false
          end, FILE_ERROR).
Proof. destruct e as [| |c t]; [reflexivity|reflexivity|destruct c; reflexivity]. Qed.

(* ------------------------------------------------------------------ *)
(** ** More on the error tracker *)

Lemma count_lookup_incr (c : list (string * nat)) (k i : string) :
  count_lookup (count_incr c k) i = count_lookup c i + (if String.eqb k i then 1 else 0).
Proof.
  induction c as [|[k' n] cs IH]; simpl.
  - destruct (String.eqb k i); reflexivity.
  - destruct (String.eqb_spec k' k) as [->|Hne]; simpl.
    + destruct (String.eqb k i); lia.
    + rewrite IH. destruct (String.eqb_spec k' i) as [->|Hi]; [|reflexivity].
      destruct (String.eqb_spec k i); [congruence|lia].
Qed.

Lemma count_keys_incr (c : list (string * nat)) (k : string) :
  NoDup (map fst c) ->
  NoDup (map fst (count_incr c k)) /\
  (forall x, In x (map fst (count_incr c k)) <-> x = k \/ In x (map fst c)).
Proof.
  induction c as [|[k' n] cs IH]; intros Hnd; simpl.
  - split; [constructor; [intros []|constructor]|]. intros x. simpl.
    split; intros [H|[]]; left; congruence.
  - inversion Hnd as [|y ys Hnot Hnd']; subst.
    destruct (String.eqb_spec k' k) as [->|Hne]; simpl.
    + split; [exact Hnd|]. intros x. simpl. split; [tauto|]. intros [->|H]; [left; reflexivity|exact H].
    + destruct (IH Hnd') as [Hnd2 Hin2]. split.
      * constructor; [|exact Hnd2]. rewrite Hin2. intros [->|H]; [congruence|tauto].
      * intros x. simpl. rewrite Hin2. tauto.
Qed.

Lemma count_sum_incr (c : list (string * nat)) (k : string) :
  list_sum (map snd (count_incr c k)) = S (list_sum (map snd c)).
Proof.
  induction c as [|[k' n] cs IH]; simpl; [reflexivity|].
  destruct (String.eqb k' k); simpl; [reflexivity|]. rewrite IH. lia.
Qed.

Lemma get_error_count_record_all (t : tracker) (calls : list (string * exn * Z)) (i : string) :
  get_error_count (record_all t calls) i =
  get_error_count t i + length (filter (fun c => String.eqb (fst (fst c)) i) calls).
Proof.
  revert t. induction calls as [|[[tid e] now] cs IH]; intros t; simpl; [lia|].
  rewrite IH.
  assert (Hr : get_error_count (record_error t tid e now) i =
               get_error_count t i + (if String.eqb tid i then 1 else 0)).
  { unfold get_error_count, record_error. cbn [error_counts]. apply count_lookup_incr. }
  rewrite Hr. destruct (String.eqb tid i); simpl; lia.
Qed.

Lemma record_all_keys (t : tracker) (calls : list (string * exn * Z)) :
  NoDup (map fst (error_counts t)) ->
  NoDup (map fst (error_counts (record_all t calls))) /\
  (forall x, In x (map fst (error_counts (record_all t calls))) <->
             In x (map fst (error_counts t)) \/ In x (map (fun c => fst (fst c)) calls)).
Proof.
  revert t. induction calls as [|[[tid e] now] cs IH]; intros t Hnd; simpl.
  - split; [exact Hnd|]. tauto.
  - destruct (count_keys_incr (error_counts t) tid Hnd) as [Hnd1 Hin1].
    destruct (IH (record_error t tid e now) Hnd1) as [Hnd2 Hin2].
    split; [exact Hnd2|]. intros x. rewrite Hin2. simpl. rewrite Hin1.
    split; intros H; repeat destruct H as [H|H]; subst; auto.
Qed.

Lemma fold_count_incr {X} (f : X -> string) (l : list X) (acc : list (string * nat)) :
  (forall k, count_lookup (fold_left (fun a r => count_incr a (f r)) l acc) k =
             count_lookup acc k + length (filter (fun r => String.eqb (f r) k) l)) /\
  list_sum (map snd (fold_left (fun a r => count_incr a (f r)) l acc)) =
    list_sum (map snd acc) + length l.
Proof.
  revert acc. induction l as [|r l IH]; intros acc; simpl.
  - split; [intros k; lia|lia].
  - destruct (IH (count_incr acc (f r))) as [H1 H2]. split.
    + intros k. rewrite H1, count_lookup_incr. destruct (String.eqb (f r) k); simpl; lia.
    + rewrite H2, count_sum_incr. lia.
Qed.

(** [get_error_count] after a sequence of [record_error] calls is the
    count before plus the number of calls for that task id (the trimming
    of the history never lowers it), so an id recorded [max_errors] times
    or more is skipped by [should_skip_task]. *)
Theorem error_count_after_records (t : tracker) (calls : list (string * exn * Z))
    (task_id : string) (max_errors : nat) :
  get_error_count (record_all t calls) task_id =
    get_error_count t task_id +
    length (filter (fun c => String.eqb (fst (fst c)) task_id) calls) /\
  (max_errors <= length (filter (fun c => String.eqb (fst (fst c)) task_id) calls) ->
   should_skip_task (record_all t calls) task_id max_errors = true).
Proof.
  rewrite get_error_count_record_all. split; [reflexivity|].
  intros H. unfold should_skip_task. rewrite get_error_count_record_all.
  apply Nat.leb_le. lia.
Qed.

(** [get_error_summary] of a tracker filled by [record_error] calls from
    empty: [total_errors] is the history length; [error_types] maps each
    class name to the number of records of that class among the last 100
    and its counts add up to [min(100, total_errors)]; and
    [tasks_with_errors] is the number of distinct task ids recorded. *)
Theorem error_summary_counts (calls : list (string * exn * Z)) :
  let t := record_all empty_tracker calls in
  let s := get_error_summary t in
  total_errors s = length (error_history t) /\
  (forall k, count_lookup (error_types s) k =
             length (filter (fun r => String.eqb (er_error_type r) k)
                            (last_n 100 (error_history t)))) /\
  list_sum (map snd (error_types s)) = Nat.min 100 (total_errors s) /\
  tasks_with_errors s = length (nodup string_dec (map (fun c => fst (fst c)) calls)).
Proof.
  cbv zeta. unfold get_error_summary. cbn [total_errors error_types tasks_with_errors].
  destruct (fold_count_incr er_error_type
              (last_n 100 (error_history (record_all empty_tracker calls))) []) as [H1 H2].
  refine (conj eq_refl (conj _ (conj _ _))).
  - intros k. rewrite H1. reflexivity.
  - rewrite H2, length_last_n. reflexivity.
  - destruct (record_all_keys empty_tracker calls ltac:(constructor)) as [Hnd Hin].
    rewrite <- (length_map fst).
    apply Permutation_length. apply NoDup_Permutation; [exact Hnd|apply NoDup_nodup|].
    intros x. rewrite Hin, nodup_In. simpl. tauto.
Qed.

(* ------------------------------------------------------------------ *)
(** ** More on [process_document] *)











(* ------------------------------------------------------------------ *)
(** ** [fallback_chunking] *)

Lemma drop_space_nil (is_space : N -> bool) (s : list N) :
  drop_space is_space s = [] <-> Forall (fun c => is_space c = true) s.
Proof.
  induction s as [|c s IH]; simpl; [split; auto|].
  destruct (is_space c) eqn:Hc.
  - rewrite IH. split; [intros H; constructor; auto|intros H; inversion H; auto].
  - split; [discriminate|intros H; inversion H; congruence].
Qed.

Lemma drop_space_head (is_space : N -> bool) (s t : list N) (c : N) :
  drop_space is_space s = c :: t -> is_space c = false.
Proof.
  induction s as [|c' s IH]; simpl; [discriminate|].
  destruct (is_space c') eqn:Hc; [exact IH|]. intros H; inversion H; subst; exact Hc.
Qed.

Lemma drop_space_suffix (is_space : N -> bool) (s : list N) :
  exists p, s = (p ++ drop_space is_space s)%list.
Proof.
  induction s as [|c s [p IH]]; simpl; [exists []; reflexivity|].
  destruct (is_space c); [exists (c :: p); simpl; congruence|exists []; reflexivity].
Qed.

Lemma drop_space_fixed (is_space : N -> bool) (s : list N) :
  (forall c t, s = c :: t -> is_space c = false) -> drop_space is_space s = s.
Proof. destruct s as [|c t]; simpl; [reflexivity|]. intros H; rewrite (H c t eq_refl); reflexivity. Qed.

Lemma drop_space_length (is_space : N -> bool) (s : list N) :
  length (drop_space is_space s) <= length s.
Proof. induction s as [|c s IH]; simpl; [lia|destruct (is_space c); simpl; lia]. Qed.

Lemma py_strip_nil (is_space : N -> bool) (s : list N) :
  py_strip is_space s = [] <-> Forall (fun c => is_space c = true) s.
Proof.
  unfold py_strip. rewrite <- (drop_space_nil is_space s). split.
  - intros H. apply (f_equal (@rev N)) in H. rewrite rev_involutive in H. simpl in H.
    apply drop_space_nil in H. apply Forall_rev in H. rewrite rev_involutive in H.
    destruct (drop_space is_space s) as [|c t] eqn:E; [reflexivity|].
    inversion H; subst. apply drop_space_head in E. congruence.
  - intros H. rewrite H. reflexivity.
Qed.

Lemma py_strip_idem (is_space : N -> bool) (s : list N) :
  py_strip is_space (py_strip is_space s) = py_strip is_space s.
Proof.
  unfold py_strip.
  set (u := drop_space is_space s).
  set (v := drop_space is_space (rev u)).
  destruct (drop_space_suffix is_space (rev u)) as [p Hp]. fold v in Hp.
  assert (Hu : u = (rev v ++ rev p)%list).
  { rewrite <- rev_app_distr, <- Hp, rev_involutive. reflexivity. }
  rewrite (drop_space_fixed is_space (rev v)).
  - rewrite rev_involutive.
    rewrite (drop_space_fixed is_space v); [reflexivity|].
    intros c t Hv. unfold v in Hv. exact (drop_space_head _ _ _ _ Hv).
  - intros c t Hv. assert (Hu' : u = c :: (t ++ rev p)%list) by (rewrite Hu, Hv; reflexivity).
    unfold u in Hu'. exact (drop_space_head _ _ _ _ Hu').
Qed.

Lemma py_strip_length (is_space : N -> bool) (s : list N) :
  length (py_strip is_space s) <= length s.
Proof.
  unfold py_strip. rewrite length_rev.
  pose proof (drop_space_length is_space (rev (drop_space is_space s))).
  pose proof (drop_space_length is_space s). rewrite length_rev in H. lia.
Qed.

Lemma chunk_windows_unfold (n : nat) (text : list N) :
  0 < n ->
  chunk_windows n text =
    match text with
    | [] => []
    | _ => firstn n text :: chunk_windows n (skipn n text)
    end.
Proof.
  intros Hn. unfold chunk_windows.
  destruct text as [|c t] eqn:Et.
  { simpl. rewrite Nat.div_small by lia. reflexivity. }
  rewrite <- Et.
  assert (Hlen : length text = S (length t)) by (rewrite Et; reflexivity).
  assert (H1 : (length text + (n - 1)) / n = S (length t / n)).
  { replace (length text + (n - 1)) with (1 * n + length t) by lia.
    rewrite Nat.div_add_l by lia. lia. }
  assert (H2 : (length (skipn n text) + (n - 1)) / n = length t / n).
  { rewrite length_skipn. destruct (Nat.le_gt_cases n (length text)) as [Hle|Hgt].
    - f_equal. lia.
    - replace (length text - n) with 0 by lia. simpl.
      rewrite !Nat.div_small by lia. reflexivity. }
  rewrite H1, H2. cbn [seq map]. f_equal.
  rewrite <- seq_shift, map_map. apply map_ext. intros k.
  rewrite skipn_skipn. f_equal. f_equal. lia.
Qed.

Lemma chunk_windows_shape (n : nat) (text : list N) :
  0 < n ->
  concat (chunk_windows n text) = text /\
  Forall (fun w => w <> [] /\ length w <= n) (chunk_windows n text).
Proof.
  intros Hn. remember (length text) as len eqn:Hl.
  revert text Hl. induction len as [len IH] using (well_founded_induction lt_wf).
  intros text Hl. rewrite chunk_windows_unfold by exact Hn.
  destruct text as [|c t] eqn:Et; [split; [reflexivity|constructor]|].
  rewrite <- Et.
  destruct (IH (length (skipn n text))) with (text := skipn n text) as [Hc Hf];
    [rewrite length_skipn, Hl, Et; cbn [length]; lia|reflexivity|].
  split.
  - simpl. rewrite Hc. apply firstn_skipn.
  - constructor; [|exact Hf]. split.
    + rewrite Et. destruct n; [lia|]. discriminate.
    + rewrite length_firstn. lia.
Qed.

Lemma fallback_fold_contents (is_space : N -> bool) (ws : list (list N)) (acc : list fb_chunk) :
  map fb_content (fold_left (fallback_step is_space) ws acc) =
  (map fb_content acc ++
   filter (fun w => negb (Nat.eqb (length w) 0)) (map (py_strip is_space) ws))%list.
Proof.
  revert acc. induction ws as [|w ws IH]; intros acc; simpl.
  - rewrite app_nil_r. reflexivity.
  - rewrite IH. unfold fallback_step.
    destruct (py_strip is_space w) as [|c t]; simpl.
    + reflexivity.
    + rewrite map_app, <- app_assoc. reflexivity.
Qed.



Lemma fallback_fold_ok (is_space : N -> bool) (ws : list (list N)) (acc : list fb_chunk) :
  (forall j ch, nth_error acc j = Some ch -> fb_chunk_ok is_space j ch) ->
  Forall (fun w => length w <= 1000) ws ->
  forall j ch, nth_error (fold_left (fallback_step is_space) ws acc) j = Some ch ->
  fb_chunk_ok is_space j ch.
Proof.
  revert acc. induction ws as [|w ws IH]; intros acc Hacc Hws; simpl; [exact Hacc|].
  inversion Hws as [|w' ws' Hw Hws']; subst.
  apply IH; [|exact Hws'].
  intros j ch Hj. unfold fallback_step in Hj.
  destruct (py_strip is_space w) as [|c t] eqn:E; [exact (Hacc j ch Hj)|].
  destruct (Nat.lt_ge_cases j (length acc)) as [Hlt|Hge].
  - rewrite nth_error_app1 in Hj by exact Hlt. exact (Hacc j ch Hj).
  - rewrite nth_error_app2 in Hj by exact Hge.
    destruct (j - length acc) as [|k] eqn:Ejk; simpl in Hj; [|destruct k; discriminate].
    inversion Hj; subst ch. replace (length acc + 1) with (S j) by lia.
    unfold fb_chunk_ok; cbn [fb_title fb_summary fb_type fb_content].
    repeat split; try reflexivity; try discriminate.
    + pose proof (py_strip_length is_space w) as Hl. rewrite E in Hl. lia.
    + rewrite <- E. apply py_strip_idem.
Qed.

Lemma filter_strip_all_blank (is_space : N -> bool) (ws : list (list N)) :
  Forall (fun w => py_strip is_space w = []) ws ->
  filter (fun w => negb (Nat.eqb (length w) 0)) (map (py_strip is_space) ws) = [].
Proof. induction 1 as [|w ws Hw _ IH]; simpl; [reflexivity|]. rewrite Hw. exact IH. Qed.

Lemma filter_strip_nil_blank (is_space : N -> bool) (ws : list (list N)) :
  filter (fun w => negb (Nat.eqb (length w) 0)) (map (py_strip is_space) ws) = [] ->
  Forall (fun w => Forall (fun c => is_space c = true) w) ws.
Proof.
  induction ws as [|w ws IH]; simpl; intros H; [constructor|].
  destruct (py_strip is_space w) as [|c t] eqn:E; simpl in H; [|discriminate].
  constructor; [apply py_strip_nil; exact E|exact (IH H)].
Qed.

Lemma Forall_concat_iff {X} (P : X -> Prop) (ls : list (list X)) :
  Forall P (concat ls) <-> Forall (Forall P) ls.
Proof.
  rewrite !Forall_forall. split.
  - intros H l Hl. apply Forall_forall. intros x Hx. apply H, in_concat. eauto.
  - intros H x Hx. apply in_concat in Hx. destruct Hx as [l [Hl Hx]].
    exact (proj1 (Forall_forall _ _) (H l Hl) x Hx).
Qed.

Lemma fallback_contents_helper (is_space : N -> bool) (text : list N) :
  map fb_content (fallback_chunking is_space (Some text)) =
  filter (fun w => negb (Nat.eqb (length w) 0))
         (map (py_strip is_space) (chunk_windows 1000 text)).
Proof.
  unfold fallback_chunking.
  destruct (chunk_windows_shape 1000 text) as [Hc _]; [lia|].
  destruct (py_strip is_space text) as [|c t] eqn:E.
  - symmetry. apply filter_strip_all_blank.
    apply py_strip_nil in E. rewrite <- Hc in E. apply Forall_concat_iff in E.
    apply Forall_forall. intros w Hw. apply py_strip_nil.
    exact (proj1 (Forall_forall _ _) E w Hw).
  - rewrite fallback_fold_contents. reflexivity.
Qed.

(** [fallback_chunking] returns no chunk exactly when the content is only
    whitespace (a missing ["content"] key counts as the empty string). *)
Theorem fallback_chunking_empty_iff_blank (is_space : N -> bool) (content_field : option (list N)) :
  fallback_chunking is_space content_field = [] <->
  Forall (fun c => is_space c = true)
         (match content_field with Some c => c | None => [] end).
Proof.
  split.
  - destruct content_field as [text|]; [|constructor].
    intros H. pose proof (fallback_contents_helper is_space text) as Hm.
    rewrite H in Hm. symmetry in Hm. apply filter_strip_nil_blank in Hm.
    apply Forall_concat_iff in Hm.
    destruct (chunk_windows_shape 1000 text) as [Hc _]; [lia|]. rewrite Hc in Hm. exact Hm.
  - intros H. unfold fallback_chunking. apply py_strip_nil in H. rewrite H. reflexivity.
Qed.

(** The windows of [fallback_chunking] cut the content into consecutive
    slices of at most [1000] code points, none empty; the chunks' contents
    are the stripped windows, in order, leaving out those that strip to
    nothing; so there are at most [ceil(len / 1000)] chunks. *)
Theorem fallback_chunking_contents (is_space : N -> bool) (text : list N) :
  concat (chunk_windows 1000 text) = text /\
  Forall (fun w => w <> [] /\ length w <= 1000) (chunk_windows 1000 text) /\
  map fb_content (fallback_chunking is_space (Some text)) =
    filter (fun w => negb (Nat.eqb (length w) 0))
           (map (py_strip is_space) (chunk_windows 1000 text)) /\
  length (fallback_chunking is_space (Some text)) <= (length text + 999) / 1000.
Proof.
  destruct (chunk_windows_shape 1000 text) as [Hc Hf]; [lia|].
  split; [exact Hc|]. split; [exact Hf|].
  split; [apply fallback_contents_helper|].
  rewrite <- (length_map fb_content), fallback_contents_helper.
  etransitivity; [apply filter_length_le|].
  unfold chunk_windows. rewrite !length_map, length_seq. change (1000 - 1) with 999. lia.
Qed.

(** The chunk at index [j] of [fallback_chunking] is titled
    ["文档片段 {j+1}"] with the summary ["文档的第{j+1}个片段"] and type
    ["fallback_chunk"]; its content is non-empty, at most [1000] code
    points long, and has no leading or trailing whitespace. *)
Theorem fallback_chunking_chunk_fields (is_space : N -> bool) (content_field : option (list N))
    (j : nat) (ch : fb_chunk)
    (Hj : nth_error (fallback_chunking is_space content_field) j = Some ch) :
  fb_chunk_ok is_space j ch.
Proof.
  revert Hj. unfold fallback_chunking.
  set (text := match content_field with Some c => c | None => [] end).
  destruct (py_strip is_space text) as [|c t].
  - destruct j; discriminate.
  - apply fallback_fold_ok.
    + intros j' ch' H. destruct j'; discriminate.
    + destruct (chunk_windows_shape 1000 text) as [_ Hf]; [lia|].
      eapply Forall_impl; [|exact Hf]. intros w [_ Hw]. exact Hw.
Qed.

(* ------------------------------------------------------------------ *)
(** ** [get_queue_stats] and [cleanup_old_tasks] *)

Lemma fold_count_keys {X} (f : X -> string) (l : list X) (acc : list (string * nat)) :
  NoDup (map fst acc) ->
  NoDup (map fst (fold_left (fun a r => count_incr a (f r)) l acc)) /\
  (forall x, In x (map fst (fold_left (fun a r => count_incr a (f r)) l acc)) <->
             In x (map fst acc) \/ In x (map f l)).
Proof.
  revert acc. induction l as [|r l IH]; intros acc Hnd; simpl.
  - split; [exact Hnd|]. intros x. split; [auto|intros [H|[]]; exact H].
  - destruct (count_keys_incr acc (f r) Hnd) as [Hnd' Hk].
    destruct (IH _ Hnd') as [Hnd'' Hk']. split; [exact Hnd''|].
    intros x. rewrite Hk', Hk. cbn [map In].
    split; intros H; repeat destruct H as [H|H]; subst; auto.
Qed.

(** [get_queue_stats] maps each status text to the number of rows with
    that status; its keys are the statuses present, each once, and the
    counts add up to the number of rows. *)
Theorem queue_stats_counts (tbl : table) :
  (forall s, count_lookup (get_queue_stats tbl) (status_name s) =
             length (filter (fun t => String.eqb (status_name (status t)) (status_name s)) tbl)) /\
  (forall k, In k (map fst (get_queue_stats tbl)) <-> exists t, In t tbl /\ status_name (status t) = k) /\
  NoDup (map fst (get_queue_stats tbl)) /\
  list_sum (map snd (get_queue_stats tbl)) = length tbl.
Proof.
  unfold get_queue_stats.
  destruct (fold_count_incr (fun t => status_name (status t)) tbl []) as [Hc Hs].
  destruct (fold_count_keys (fun t => status_name (status t)) tbl [] (NoDup_nil _)) as [Hnd Hk].
  split; [intros s; rewrite Hc; reflexivity|].
  split; [|split; [exact Hnd|rewrite Hs; reflexivity]].
  intros k. rewrite Hk. simpl. rewrite in_map_iff. split.
  - intros [[]|[t [H1 H2]]]. eauto.
  - intros [t [H1 H2]]. eauto.
Qed.

(** [cleanup_old_tasks(days)] deletes exactly the rows that are
    [completed] or [failed] with a [completed_at] before [now - days];
    the rows it keeps stay in order, and the count it reports is the
    number of rows deleted. A row in any other status, or with a NULL
    [completed_at], is never deleted. *)
Theorem cleanup_old_tasks_spec (days now : Z) (tbl : table) :
  length (fst (cleanup_old_tasks days now tbl)) + snd (cleanup_old_tasks days now tbl) = length tbl /\
  (forall t, In t tbl ->
     (In t (fst (cleanup_old_tasks days now tbl)) <->
      ~ ((status t = Completed \/ status t = Failed) /\
         exists c, completed_at t = Some c /\ (c < now - days * 86400)%Z))) /\
  (forall t, In t tbl -> (status t = Pending \/ status t = Processing \/ status t = Retry \/
                          completed_at t = None) ->
             In t (fst (cleanup_old_tasks days now tbl))).
Proof.
  unfold cleanup_old_tasks; cbn [fst snd].
  set (cutoff := (now - days * 86400)%Z).
  assert (Hd : forall t, cleanup_doomed cutoff t = true <->
                 (status t = Completed \/ status t = Failed) /\
                 exists c, completed_at t = Some c /\ (c < cutoff)%Z).
  { intros t. unfold cleanup_doomed.
    destruct (status t); destruct (completed_at t) as [c|];
      (split; [intros H|intros [[H|H] [c' [Hc' Hlt]]]]);
      try discriminate; try congruence;
      try (inversion Hc'; subst; apply Z.ltb_lt; exact Hlt);
      try (split; [auto|exists c; split; [reflexivity|apply Z.ltb_lt; exact H]]). }
  assert (Hin : forall t, In t tbl ->
            (In t (filter (fun t => negb (cleanup_doomed cutoff t)) tbl) <->
             ~ ((status t = Completed \/ status t = Failed) /\
                exists c, completed_at t = Some c /\ (c < cutoff)%Z))).
  { intros t Ht. rewrite filter_In, <- Hd. destruct (cleanup_doomed cutoff t); simpl; intuition congruence. }
  split; [|split; [exact Hin|]].
  - clear Hin Hd. induction tbl as [|t ts IH]; simpl; [reflexivity|].
    destruct (cleanup_doomed cutoff t); simpl; rewrite <- IH; lia.
  - intros t Ht Hs. apply Hin; [exact Ht|].
    intros [[Hc|Hc] [c [Hca _]]]; destruct Hs as [H|[H|[H|H]]]; congruence.
Qed.


Lemma never_completed_step (i : string) (o : queue_op) (tbl : table) :
  Forall (fun t => id t = i -> completed_at t = None) tbl ->
  (match o with OpComplete j _ _ => j <> i | _ => True end) ->
  Forall (fun t => id t = i -> completed_at t = None) (apply_op o tbl).
Proof.
  intros Hf Ho. destruct o as [j n a kw now|now stamp|j r now|j m r now]; simpl.
  - unfold enqueue. destruct (existsb (fun t => String.eqb (id t) j) tbl); [exact Hf|].
    apply Forall_app. split; [exact Hf|]. constructor; [reflexivity|constructor].
  - unfold dequeue. destruct (oldest_claimable now None tbl) as [t|]; [|exact Hf].
    apply Forall_update_where; [exact Hf|].
    intros t' Hin _. exact (proj1 (Forall_forall _ _) Hf t' Hin).
  - unfold complete_task. apply Forall_update_where; [exact Hf|].
    intros t' _ Hid. simpl. congruence.
  - unfold fail_task. destruct (find_task j tbl) as [row|]; [|exact Hf].
    destruct (r && Z.ltb (retry_count row) (max_retries row));
      apply Forall_update_where; try exact Hf;
      intros t' Hin _; exact (proj1 (Forall_forall _ _) Hf t' Hin).
Qed.

Lemma cleanup_find_never_completed (i : string) (days now : Z) (tbl : table) :
  Forall (fun t => id t = i -> completed_at t = None) tbl ->
  find_task i (fst (cleanup_old_tasks days now tbl)) = find_task i tbl.
Proof.
  unfold cleanup_old_tasks; cbn [fst].
  induction 1 as [|t ts Ht _ IH]; simpl; [reflexivity|].
  destruct (String.eqb_spec (id t) i) as [E|E].
  - assert (Hn : cleanup_doomed (now - days * 86400) t = false).
    { unfold cleanup_doomed. rewrite (Ht E). destruct (status t); reflexivity. }
    rewrite Hn. simpl. rewrite (proj2 (String.eqb_eq _ _) E). reflexivity.
  - destruct (cleanup_doomed (now - days * 86400) t); simpl; [exact IH|].
    rewrite (proj2 (String.eqb_neq _ _) E). exact IH.
Qed.

(** [fail_task] never sets [completed_at], so a row whose
    [completed_at] is NULL keeps it through every queue operation other
    than [complete_task] on that row; such a row, [failed] or not, is
    never deleted by [cleanup_old_tasks]. *)
Theorem never_completed_survives_cleanup (ops : list queue_op) (tbl : table) (i : string)
    (days now : Z)
    (Hnone : Forall (fun t => id t = i -> completed_at t = None) tbl)
    (Hops : Forall (fun o => match o with OpComplete j _ _ => j <> i | _ => True end) ops) :
  (forall r, find_task i (apply_ops ops tbl) = Some r -> completed_at r = None) /\
  find_task i (fst (cleanup_old_tasks days now (apply_ops ops tbl))) =
    find_task i (apply_ops ops tbl).
Proof.
  assert (Hall : Forall (fun t => id t = i -> completed_at t = None) (apply_ops ops tbl)).
  { unfold apply_ops. revert tbl Hnone.
    induction Hops as [|o os Ho _ IH]; intros tbl Hnone; simpl; [exact Hnone|].
    apply IH. apply never_completed_step; assumption. }
  split.
  - intros r Hr. destruct (find_task_some _ _ _ Hr) as [Hin Hid].
    exact (proj1 (Forall_forall _ _) Hall r Hin Hid).
  - apply cleanup_find_never_completed. exact Hall.
Qed.

(* ------------------------------------------------------------------ *)
(** ** The worker loop *)

Lemma find_task_update_where_neq (i j : string) (f : task -> task) (tbl : table) :
  (forall t, id (f t) = id t) -> j <> i ->
  find_task i (update_where j f tbl) = find_task i tbl.
Proof.
  intros Hf Hji. induction tbl as [|t ts IH]; simpl; [reflexivity|].
  destruct (String.eqb_spec (id t) j) as [E|E]; simpl; rewrite ?Hf, IH; [|reflexivity].
  rewrite E, (proj2 (String.eqb_neq _ _) Hji). reflexivity.
Qed.

Lemma map_id_process_task (registered : string -> bool) (q : queued_task)
    (outcome : option string + string) (now : Z) (tbl : table) :
  map id (process_task registered q outcome now tbl) = map id tbl.
Proof.
  unfold process_task, complete_task, fail_task.
  destruct (negb (registered (q_task_name q))); [|destruct outcome];
    try destruct (find_task (q_id q) tbl) as [row|]; try reflexivity;
    try destruct (_ && _); apply map_id_update_where; reflexivity.
Qed.

Lemma process_task_other (registered : string -> bool) (q : queued_task)
    (outcome : option string + string) (now : Z) (tbl : table) (i : string) :
  q_id q <> i -> find_task i (process_task registered q outcome now tbl) = find_task i tbl.
Proof.
  intros Hq. unfold process_task, complete_task, fail_task.
  destruct (negb (registered (q_task_name q))); [|destruct outcome];
    try destruct (find_task (q_id q) tbl) as [row|]; try reflexivity;
    try destruct (_ && _); apply find_task_update_where_neq; auto.
Qed.

Lemma find_task_in (tbl : table) (t : task) :
  NoDup (map id tbl) -> In t tbl -> find_task (id t) tbl = Some t.
Proof.
  intros Hnd Hin. destruct (find_task (id t) tbl) as [r|] eqn:E.
  - destruct (find_task_some _ _ _ E) as [Hr Hid].
    f_equal. exact (nodup_same_id tbl r t Hnd Hr Hin Hid).
  - exfalso. exact (find_task_none _ _ E t Hin eq_refl).
Qed.

Lemma worker_step_budget (registered : string -> bool)
    (outcome : queued_task -> option string + string) (now stamp fin : Z) (tbl : table) (i : string) :
  NoDup (map id tbl) ->
  NoDup (map id (snd (worker_step registered outcome now stamp fin tbl))) /\
  (match fst (worker_step registered outcome now stamp fin tbl) with
   | Some q => if String.eqb (q_id q) i then 1 else 0
   | None => 0
   end) + row_budget registered i (snd (worker_step registered outcome now stamp fin tbl))
  <= row_budget registered i tbl.
Proof.
  intros Hnd. unfold worker_step, dequeue.
  pose proof (oldest_claimable_spec now tbl None ltac:(discriminate)) as Hspec.
  destruct (oldest_claimable now None tbl) as [t|]; cbn [fst snd]; [|split; [exact Hnd|lia]].
  destruct Hspec as [Hcl [[Hb|Hin] _]]; [discriminate|].
  set (tbl1 := update_where (id t) (mark_processing stamp) tbl).
  assert (Hid1 : map id tbl1 = map id tbl) by (apply map_id_update_where; reflexivity).
  split; [rewrite map_id_process_task, Hid1; exact Hnd|].
  destruct (String.eqb_spec (id t) i) as [E|E]; cbn [queued_of q_id q_task_name].
  - subst i. rewrite String.eqb_refl. unfold row_budget.
    rewrite (find_task_in tbl t Hnd Hin).
    assert (Hf1 : find_task (id t) tbl1 = Some (mark_processing stamp t)).
    { unfold tbl1. rewrite find_task_update_where by reflexivity.
      rewrite (find_task_in tbl t Hnd Hin). reflexivity. }
    destruct (claimable_next now t Hcl) as [Hst _].
    unfold process_task. cbn [q_id q_task_name queued_of].
    destruct (registered (task_name t)) eqn:Hreg; cbn [negb].
    + destruct (outcome (queued_of t)) as [res|err].
      * unfold complete_task. rewrite find_task_update_where by reflexivity.
        rewrite Hf1. cbn [option_map]. unfold claim_budget. cbn [status].
        destruct Hst as [-> | ->]; rewrite Hreg; lia.
      * rewrite (fail_task_found _ _ _ _ _ _ Hf1). cbn [andb].
        unfold claim_budget at 2. destruct Hst as [Hs | Hs]; rewrite Hs, Hreg;
          destruct (Z.ltb_spec (retry_count (mark_processing stamp t))
                               (max_retries (mark_processing stamp t))) as [Hlt|Hge];
          unfold claim_budget; cbn [status set_retry set_failed task_name mark_processing
                                    retry_count max_retries] in *; try rewrite Hreg; try lia.
        all: assert (Z.to_nat (max_retries t - retry_count t) =
                     S (Z.to_nat (max_retries t - (retry_count t + 1)))) as Hz
               by (rewrite <- Z2Nat.inj_succ by lia; f_equal; lia).
        all: lia.
    + rewrite (fail_task_found _ _ _ _ _ _ Hf1). cbn [andb set_failed status].
      unfold claim_budget. cbn [status set_failed]. destruct Hst as [-> | ->]; rewrite Hreg; lia.
  - unfold row_budget. rewrite process_task_other by (cbn [queued_of q_id]; exact E).
    unfold tbl1. rewrite find_task_update_where_neq by (reflexivity || exact E).
    rewrite (proj2 (String.eqb_neq _ _) E). lia.
Qed.


Lemma worker_run_budget (registered : string -> bool) (i : string) :
  forall steps tbl, NoDup (map id tbl) ->
  length (filter (fun q => String.eqb (q_id q) i) (fst (worker_run registered steps tbl)))
    + row_budget registered i (snd (worker_run registered steps tbl))
  <= row_budget registered i tbl.
Proof.
  induction steps as [|[[[now stamp] fin] outcome] ss IH]; intros tbl Hnd; simpl; [lia|].
  destruct (worker_step_budget registered outcome now stamp fin tbl i Hnd) as [Hnd1 Hb].
  destruct (worker_step registered outcome now stamp fin tbl) as [got tbl1].
  cbn [fst snd] in Hnd1, Hb.
  specialize (IH tbl1 Hnd1).
  destruct (worker_run registered ss tbl1) as [gots tbl2]. cbn [fst snd] in IH |- *.
  destruct got as [q|]; [cbn [filter length]; destruct (String.eqb (q_id q) i)|]; cbn [length] in *; lia.
Qed.

(** However the handlers behave and whatever the clock reads, a run of
    the worker loop over a table with unique ids claims the task [i] at
    most its claim budget many times: its remaining retries plus one if
    its function is registered and it is [pending] or [retry], once if
    its function is not registered, and never if it is [processing],
    [completed] or [failed] or not in the table. *)
Theorem worker_claims_bounded (registered : string -> bool)
    (steps : list (Z * Z * Z * (queued_task -> option string + string)))
    (tbl : table) (i : string) (Hnd : NoDup (map id tbl)) :
  length (filter (fun q => String.eqb (q_id q) i) (fst (worker_run registered steps tbl)))
    <= row_budget registered i tbl.
Proof. pose proof (worker_run_budget registered i steps tbl Hnd). lia. Qed.

(* ------------------------------------------------------------------ *)
(** ** The typed handlers and [get_task_status] *)

Lemma string_app_assoc (a b c : string) : a ++ (b ++ c) = (a ++ b) ++ c.
Proof. induction a as [|x a IH]; simpl; [reflexivity|]. rewrite IH. reflexivity. Qed.

(** [handle_api_error], [handle_database_error] and [handle_parsing_error]
    each return a typed error that keeps the original exception and whose
    message ends with the original message; the API handler's kind is
    [API_ERROR] or (for a retryable network failure) [NETWORK_ERROR], the
    other two always give their own kind. *)
Theorem typed_handlers_keep_original (lower : string -> string) (e : exn) (s : string) :
  (exists p r k, verdict (handle_api_error lower e s) = Some (r, k) /\
     (k = API_ERROR \/ (k = NETWORK_ERROR /\ r = true)) /\
     py_str (handle_api_error lower e s) = p ++ py_str e /\
     match handle_api_error lower e s with
     | RetryableError _ _ o | NonRetryableError _ _ o => o = Some e
     | PyError _ _ => False
     end) /\
  (exists p r, verdict (handle_database_error lower e s) = Some (r, DATABASE_ERROR) /\
     py_str (handle_database_error lower e s) = p ++ py_str e /\
     match handle_database_error lower e s with
     | RetryableError _ _ o | NonRetryableError _ _ o => o = Some e
     | PyError _ _ => False
     end) /\
  (exists p r, verdict (handle_parsing_error lower e s) = Some (r, PARSING_ERROR) /\
     py_str (handle_parsing_error lower e s) = p ++ py_str e /\
     match handle_parsing_error lower e s with
     | RetryableError _ _ o | NonRetryableError _ _ o => o = Some e
     | PyError _ _ => False
     end).
Proof.
  unfold handle_api_error, handle_database_error, handle_parsing_error.
  refine (conj _ (conj _ _)); split_ifs; cbn [verdict py_str].
  all: repeat match goal with |- exists _, _ => eexists end.
  all: refine (conj eq_refl _).
  all: try (refine (conj (or_introl eq_refl) _) || refine (conj (or_intror (conj eq_refl eq_refl)) _)).
  all: refine (conj _ eq_refl); rewrite !string_app_assoc; reflexivity.
Qed.

(** [enqueue] followed by [get_task_status]: a fresh id reads back as a
    new [pending] row with [retry_count = 0], [max_retries = 3] and no
    timestamps but [created_at]; every other id reads back as before; an
    id already present leaves the table as it was. *)
Theorem enqueue_then_get_task_status (task_id name a kw : string) (now : Z) (tbl : table) :
  (find_task task_id tbl = None ->
   get_task_status task_id (enqueue task_id name a kw now tbl) = Some (new_task task_id name a kw now) /\
   (forall j, j <> task_id ->
      get_task_status j (enqueue task_id name a kw now tbl) = get_task_status j tbl)) /\
  (forall r, find_task task_id tbl = Some r -> enqueue task_id name a kw now tbl = tbl).
Proof.
  assert (Hex : existsb (fun t => String.eqb (id t) task_id) tbl = true <->
                exists r, find_task task_id tbl = Some r).
  { induction tbl as [|t ts IH]; simpl; [split; [discriminate|intros [r Hr]; discriminate]|].
    destruct (String.eqb (id t) task_id); simpl; [split; eauto|exact IH]. }
  unfold get_task_status, enqueue. split.
  - intros Hn. destruct (existsb (fun t => String.eqb (id t) task_id) tbl) eqn:E.
    { destruct (proj1 Hex eq_refl) as [r Hr]. congruence. }
    assert (Happ : forall j, find_task j (tbl ++ [new_task task_id name a kw now])%list =
                   match find_task j tbl with
                   | Some r => Some r
                   | None => if String.eqb task_id j then Some (new_task task_id name a kw now) else None
                   end).
    { intros j. clear Hex E Hn. induction tbl as [|t ts IH]; simpl; [reflexivity|].
      destruct (String.eqb (id t) j); [reflexivity|exact IH]. }
    split.
    + rewrite Happ, Hn, String.eqb_refl. reflexivity.
    + intros j Hj. rewrite Happ. destruct (find_task j tbl); [reflexivity|].
      rewrite (proj2 (String.eqb_neq _ _)) by congruence. reflexivity.
  - intros r Hr. assert (E : existsb (fun t => String.eqb (id t) task_id) tbl = true)
      by (apply Hex; eauto). rewrite E. reflexivity.
Qed.

(* ------------------------------------------------------------------ *)
(** ** Instances of the properties above *)

Lemma retry_negative_max_retries_never_calls_witness :
  (-1 < 0)%Z /\
  retry_with_backoff "f" (fun _ => @inl unit exn tt) (-1) 1 60 2 =
    ([], inr (PyError TypeError_ "exceptions must derive from BaseException")).
Proof.
  split; [lia|].
  apply (retry_negative_max_retries_never_calls "f" (fun _ => @inl unit exn tt) (-1) 1 60 2).
  lia.
Defined.

Lemma retry_calls_and_sleep_bounded_witness :
  (0 <= 2)%Z /\ (0 <= 60)%Q /\
  (let tr := fst (retry_with_backoff "f"
                    (fun _ => @inr unit exn (RetryableError "busy" API_ERROR None)) 2 1 60 2) in
   1 <= calls "f" tr <= Z.to_nat 2 + 1 /\
   (Qsum (sleeps tr) <= inject_Z 2 * 60)%Q).
Proof.
  split; [lia|]. split; [lra|].
  apply (retry_calls_and_sleep_bounded "f"
           (fun _ => @inr unit exn (RetryableError "busy" API_ERROR None)) 2 1 60 2);
    [lia|lra].
Defined.


Lemma never_completed_survives_cleanup_witness :
  let ops := [OpEnqueue "t1" "process_document" "[]" "{}" 0; OpDequeue 5 5;
              OpFail "t1" "boom" false 6] in
  (forall r, find_task "t1" (apply_ops ops []) = Some r -> completed_at r = None) /\
  find_task "t1" (fst (cleanup_old_tasks 7 100000000 (apply_ops ops []))) =
    find_task "t1" (apply_ops ops []).
Proof.
  cbv zeta.
  apply (never_completed_survives_cleanup
           [OpEnqueue "t1" "process_document" "[]" "{}" 0; OpDequeue 5 5;
            OpFail "t1" "boom" false 6] [] "t1" 7 100000000).
  - constructor.
  - repeat constructor.
Defined.

Lemma worker_claims_bounded_witness :
  NoDup (map id [new_task "t1" "process_document" "[]" "{}" 0]) /\
  length (filter (fun q => String.eqb (q_id q) "t1")
            (fst (worker_run (fun n => String.eqb n "process_document")
                    [(10%Z, 10%Z, 11%Z, fun _ => inr "boom"); (200%Z, 200%Z, 201%Z, fun _ => inr "boom")]
                    [new_task "t1" "process_document" "[]" "{}" 0])))
    <= row_budget (fun n => String.eqb n "process_document") "t1"
         [new_task "t1" "process_document" "[]" "{}" 0].
Proof.
  assert (Hnd : NoDup (map id [new_task "t1" "process_document" "[]" "{}" 0]))
    by (constructor; [intros []|constructor]).
  split; [exact Hnd|].
  exact (worker_claims_bounded (fun n => String.eqb n "process_document")
           [(10%Z, 10%Z, 11%Z, fun _ => inr "boom"); (200%Z, 200%Z, 201%Z, fun _ => inr "boom")]
           [new_task "t1" "process_document" "[]" "{}" 0] "t1" Hnd).
Defined.

Lemma fallback_chunking_chunk_fields_witness :
  nth_error (fallback_chunking py_isspace (Some (repeat 97%N 1001 ++ [32; 32])%N)%list) 1 =
    Some (mk_fb_chunk "文档片段 2" [97%N] "文档的第2个片段" "fallback_chunk") /\
  fb_chunk_ok py_isspace 1 (mk_fb_chunk "文档片段 2" [97%N] "文档的第2个片段" "fallback_chunk").
Proof.
  assert (Hj : nth_error (fallback_chunking py_isspace (Some (repeat 97%N 1001 ++ [32; 32])%N)%list) 1 =
               Some (mk_fb_chunk "文档片段 2" [97%N] "文档的第2个片段" "fallback_chunk"))
    by (vm_compute; reflexivity).
  split; [exact Hj|].
  exact (fallback_chunking_chunk_fields py_isspace _ 1 _ Hj).
Defined.
